(** * graphql-helix, examples/graphql-jit/server.ts

    A shallow embedding of the Express handler that serves GraphQL requests
    through [processRequest] with caching [parse], [validate] and [execute]
    callbacks backed by a [tiny-lru] cache, and of the way it answers the
    three kinds of result ("RESPONSE", "PUSH", anything else).

    Conventions of the embedding.
    - A JavaScript value that is either [undefined] or an object is an
      [option]: documents, arrays of validation errors (the empty array
      included) and compiled plans are objects, hence truthy, so the tests
      [!document], [!validationErrors] and [!compiledQuery] are tests for
      [None].
    - The imported libraries ([graphql], [graphql-jit], [JSON]), the schema
      and the helpers [getGraphQLParameters], [shouldRenderGraphiQL] and
      [renderGraphiQL] are an interface, the class [Collaborators]; every
      theorem holds for all its instances.
    - [processRequest] and the producer behind a "PUSH" result belong to
      graphql-helix but are defined outside this file; they are modelled
      from the specification, each under a comment that says so.
    - The cache is a finite map from the cache key to the stored object;
      [cache.set] stores the object under the key in place of what was
      there. Capacity and time-to-live eviction of [lru(1000, 3600000)] are
      outside the model: every statement is about a key whose entry is not
      evicted. [console.log] is not modelled either.
    - The calls made to the collaborators are recorded in a log, so that
      "is invoked exactly once" is a statement about that log. *)

From stdpp Require Import base option list strings gmap.
From Stdlib Require Import Lia.

Module GraphqlJit.

(** ** The collaborators *)

(** The carrier types of the imported libraries. *)
Class Carriers := {
  DocumentNode : Type;
  ParseOptions : Type;
  GraphQLError : Type;
  GraphQLSchema : Type;
  ValidationRules : Type;
  TypeInfo : Type;
  ValidateOptions : Type;
  RootValue : Type;
  ContextValue : Type;
  VariableValues : Type;
  (** what an execution returns and what is sent as a payload *)
  ExecutionValue : Type;
  HttpRequest : Type;
}.

(** [compileQuery] returns [CompiledQuery | ExecutionResult]: an object
    with a [query] function, or an execution result carrying errors. *)
Inductive CompiledPlan `{Carriers} : Type :=
  | CompiledQuery (query : RootValue → ContextValue → VariableValues → ExecutionValue)
  | ExecutionResult (result : ExecutionValue).

(** [isCompiledQuery] of graphql-jit. *)
Definition isCompiledQuery `{Carriers} (plan : CompiledPlan) : bool :=
  match plan with
  | CompiledQuery _ => true
  | ExecutionResult _ => false
  end.

(** A JavaScript call either returns or throws. [parse] of graphql throws
    a [GraphQLError] on a syntax error. *)
Inductive Completion `{Carriers} (A : Type) : Type :=
  | Normal (a : A)
  | Throw (e : GraphQLError).
Arguments Normal {_ _} a.
Arguments Throw {_ _} e.

(** The parameters of a request, as [getGraphQLParameters] returns them;
    a missing [query] or [variables] is [undefined]. *)
Record GraphQLParams `{Carriers} := {
  operationName : option string;
  query : option string;
  variables : option VariableValues;
}.

(** What [processRequest] returns, as far as the handler reads it: the
    discriminating [type] and the fields of the "RESPONSE" variant. The
    [subscribe]/[unsubscribe] pair of the "PUSH" variant is the producer of
    the session, see [Session] below. *)
Record ProcessRequestResult `{Carriers} := {
  type : string;
  headers : list (string * string);
  status : nat;
  payload : ExecutionValue;
}.

Class Collaborators `{Carriers} := {
  (* graphql *)
  parse : string → ParseOptions → Completion DocumentNode;
  validate : GraphQLSchema → DocumentNode → ValidationRules → TypeInfo →
             ValidateOptions → list GraphQLError;
  (* graphql-jit *)
  compileQuery : GraphQLSchema → DocumentNode → option string → CompiledPlan;
  (* ./schema *)
  schema : GraphQLSchema;
  (* the object literal [{}] *)
  empty_object : VariableValues;
  (* graphql-helix and @graphql-helix/graphiql *)
  shouldRenderGraphiQL : HttpRequest → bool;
  renderGraphiQL : string;
  getGraphQLParameters : HttpRequest → GraphQLParams;
  (* JSON *)
  JSON_stringify : ExecutionValue → string;
}.

Section Server.
Context `{Collaborators}.

(** ** The cache *)

(** The objects the handler stores: [{ document }],
    [{ document, validationErrors }] and
    [{ compiledQuery, document, validationErrors }]. A property that the
    object literal does not have, or has with the value [undefined], reads
    as [undefined]. *)
Record CacheEntry := {
  entry_compiledQuery : option CompiledPlan;
  entry_document : option DocumentNode;
  entry_validationErrors : option (list GraphQLError);
}.

(** The calls to the collaborators that the callbacks can make. *)
Inductive Call :=
  | Call_parse (source : string) (options : ParseOptions)
  | Call_validate (s : GraphQLSchema) (documentAST : DocumentNode)
      (rules : ValidationRules) (typeInfo : TypeInfo) (options : ValidateOptions)
  | Call_compileQuery (s : GraphQLSchema) (documentAst : DocumentNode)
      (operationName : option string)
  | Call_query (rootValue : RootValue) (contextValue : ContextValue)
      (variableValues : VariableValues).

Definition is_parse (c : Call) : bool :=
  match c with Call_parse _ _ => true | _ => false end.
Definition is_validate (c : Call) : bool :=
  match c with Call_validate _ _ _ _ _ => true | _ => false end.
Definition is_compileQuery (c : Call) : bool :=
  match c with Call_compileQuery _ _ _ => true | _ => false end.
Definition is_query (c : Call) : bool :=
  match c with Call_query _ _ _ => true | _ => false end.

(** Number of calls of one kind in a log. *)
Fixpoint count (p : Call → bool) (l : list Call) : nat :=
  match l with
  | [] => 0
  | c :: l => (if p c then 1 else 0) + count p l
  end.

(** What the callbacks share with the rest of the process: the module-level
    [cache] and the log of calls. *)
Record World := {
  cache : gmap string CacheEntry;
  calls : list Call;
}.

(** The three [let] variables of the handler, captured by the callbacks. *)
Record Closure := {
  compiledQuery : option CompiledPlan;
  document : option DocumentNode;
  validationErrors : option (list GraphQLError);
}.

(** Line 13: [const cache = lru(1000, 3600000)], the cache the process
    starts with. *)
Definition startup : World := {| cache := ∅; calls := [] |}.

(** [cache.get(key)] and [cache.set(key, value)] of tiny-lru. *)
Definition cache_get (key : string) (w : World) : option CacheEntry :=
  cache w !! key.
Definition cache_set (key : string) (value : CacheEntry) (w : World) : World :=
  {| cache := <[key := value]> (cache w); calls := calls w |}.

Definition record_call (c : Call) (w : World) : World :=
  {| cache := cache w; calls := calls w ++ [c] |}.

(** ** A monad for the callbacks

    A callback reads and assigns the captured variables, reads and writes
    the cache, calls collaborators, and returns or throws. *)
Definition M (A : Type) : Type := Closure * World → Completion A * (Closure * World).

#[export] Instance M_ret : MRet M := λ A a st, (Normal a, st).
#[export] Instance M_bind : MBind M := λ A B f m st,
  match m st with
  | (Normal a, st') => f a st'
  | (Throw e, st') => (Throw e, st')
  end.

Definition read : M Closure := λ st, (Normal (fst st), st).
Definition assign_document (d : DocumentNode) : M unit := λ '(l, w),
  (Normal (), ({| compiledQuery := compiledQuery l; document := Some d;
                  validationErrors := validationErrors l |}, w)).
Definition assign_validationErrors (v : list GraphQLError) : M unit := λ '(l, w),
  (Normal (), ({| compiledQuery := compiledQuery l; document := document l;
                  validationErrors := Some v |}, w)).
Definition assign_compiledQuery (p : CompiledPlan) : M unit := λ '(l, w),
  (Normal (), ({| compiledQuery := Some p; document := document l;
                  validationErrors := validationErrors l |}, w)).
Definition store (key : string) (value : CacheEntry) : M unit := λ '(l, w),
  (Normal (), (l, cache_set key value w)).
Definition call {A} (c : Call) (r : Completion A) : M A := λ '(l, w),
  (r, (l, record_call c w)).

(** ** The callbacks (lines 44-88) *)

(** [parse: (source, options) => { if (!document) { document = parse(source,
    options); cache.set(cacheKey, { document }); } return document; }] *)
Definition parse_callback (cacheKey : string) (source : string)
    (options : ParseOptions) : M DocumentNode :=
  l ← read;
  match document l with
  | None =>
      d ← call (Call_parse source options) (parse source options);
      assign_document d;;
      store cacheKey {| entry_compiledQuery := None; entry_document := Some d;
                      entry_validationErrors := None |};;
      mret d
  | Some d => mret d
  end.

(** [validate: (schema, documentAST, rules, typeInfo, options) => { if
    (!validationErrors) { validationErrors = validate(...);
    cache.set(cacheKey, { document, validationErrors }); } return
    validationErrors; }] *)
Definition validate_callback (cacheKey : string) (s : GraphQLSchema)
    (documentAST : DocumentNode) (rules : ValidationRules) (typeInfo : TypeInfo)
    (options : ValidateOptions) : M (list GraphQLError) :=
  l ← read;
  match validationErrors l with
  | None =>
      v ← call (Call_validate s documentAST rules typeInfo options)
               (Normal (validate s documentAST rules typeInfo options));
      assign_validationErrors v;;
      store cacheKey {| entry_compiledQuery := None; entry_document := document l;
                      entry_validationErrors := Some v |};;
      mret v
  | Some v => mret v
  end.

(** [variableValues || {}] *)
Definition or_empty_object (variableValues : option VariableValues) : VariableValues :=
  default empty_object variableValues.

(** [execute: (schema, documentAst, rootValue, contextValue, variableValues,
    operationName) => { if (!compiledQuery) { compiledQuery =
    compileQuery(schema, documentAst, operationName); cache.set(cacheKey,
    { compiledQuery, document, validationErrors }); } if
    (isCompiledQuery(compiledQuery)) { return compiledQuery.query(rootValue,
    contextValue, variableValues || {}); } else { return compiledQuery; } }] *)
Definition execute_callback (cacheKey : string) (s : GraphQLSchema)
    (documentAst : DocumentNode) (rootValue : RootValue)
    (contextValue : ContextValue) (variableValues : option VariableValues)
    (opName : option string) : M ExecutionValue :=
  l ← read;
  plan ← match compiledQuery l with
         | None =>
             p ← call (Call_compileQuery s documentAst opName)
                      (Normal (compileQuery s documentAst opName));
             assign_compiledQuery p;;
             store cacheKey {| entry_compiledQuery := Some p;
                             entry_document := document l;
                             entry_validationErrors := validationErrors l |};;
             mret p
         | Some p => mret p
         end;
  match plan with
  | CompiledQuery query =>                        (* isCompiledQuery(compiledQuery) *)
      call (Call_query rootValue contextValue (or_empty_object variableValues))
           (Normal (query rootValue contextValue (or_empty_object variableValues)))
  | ExecutionResult result => mret result
  end.

(** ** processRequest *)

(** What [processRequest] brings to a run of the pipeline besides the
    request's parameters: the arguments it hands to the callbacks and the
    results it builds. *)
Record Helix := {
  parseOptions : ParseOptions;
  validationRules : ValidationRules;
  typeInfo : TypeInfo;
  validateOptions : ValidateOptions;
  rootValue : RootValue;
  contextValue : ContextValue;
  report_missing_query : ProcessRequestResult;
  report_parse_error : GraphQLError → ProcessRequestResult;
  report_validation_errors : list GraphQLError → ProcessRequestResult;
  classify : ExecutionValue → ProcessRequestResult;
}.

(** Modelled from the spec: the stages that [processRequest] of
    graphql-helix runs; the function is not among the sources, only its
    call is (lines 38-89). It runs the stages in order through the callbacks
    it is given (Compilation Pipeline, steps 2 to 5): the parser, aborting
    on a parse failure; the validator, aborting with one or more errors,
    which it reports verbatim; then the execute callback, whose outcome it
    classifies. *)
Definition pipeline (helix : Helix) (cacheKey : string) (text : string)
    (params : GraphQLParams) : M ProcessRequestResult :=
  documentAST ← parse_callback cacheKey text (parseOptions helix);
  errors ← validate_callback cacheKey schema documentAST (validationRules helix)
             (typeInfo helix) (validateOptions helix);
  match errors with
  | [] =>
      value ← execute_callback cacheKey schema documentAST (rootValue helix)
                (contextValue helix) (variables params) (operationName params);
      mret (classify helix value)
  | _ :: _ => mret (report_validation_errors helix errors)
  end.

(** Modelled from the spec: [processRequest] itself. Stage failures are
    returned as a result, never thrown; the parser is the only collaborator
    that throws, so what is caught is a parse error. Without query text no
    stage runs. *)
Definition processRequest (helix : Helix) (cacheKey : string)
    (params : GraphQLParams) (st : Closure * World)
    : ProcessRequestResult * (Closure * World) :=
  match query params with
  | None => (report_missing_query helix, st)
  | Some text =>
      match pipeline helix cacheKey text params st with
      | (Normal result, st') => (result, st')
      | (Throw e, st') => (report_parse_error helix e, st')
      end
  end.

(** ** The handler (lines 19-113) *)

(** [query || ""]: a missing query and the empty string both give [""]. *)
Definition cacheKey_of (query : option string) : string :=
  match query with
  | Some text => if String.eqb text "" then "" else text
  | None => ""
  end.

(** Lines 32-35: [cached = cache.get(cacheKey)] and the three variables
    initialised with [cached?.compiledQuery], [cached?.document] and
    [cached?.validationErrors]. *)
Definition closure_of (cached : option CacheEntry) : Closure :=
  {| compiledQuery := cached ≫= entry_compiledQuery;
     document := cached ≫= entry_document;
     validationErrors := cached ≫= entry_validationErrors |}.

(** Lines 30-89: the parameters, the cache key, the cached entry, and the
    call of [processRequest]. *)
Definition run_request (helix : Helix) (request : HttpRequest) (w : World)
    : ProcessRequestResult * (Closure * World) :=
  let params := getGraphQLParameters request in
  let cacheKey := cacheKey_of (query params) in
  let cached := cache_get cacheKey w in
  processRequest helix cacheKey params (closure_of cached, w).

(** The operations on the response object [res]. *)
Inductive ResOp :=
  | res_send (body : string)
  | res_setHeader (name value : string)
  | res_status (code : nat)
  | res_json (body : ExecutionValue)
  | res_writeHead (code : nat) (hs : list (string * string))
  | res_write (chunk : string).

(** Modelled from the spec: the producer behind [result.subscribe] and
    [result.unsubscribe] of a "PUSH" result, built by [processRequest].
    It hands each value of the underlying sequence to the subscriber for
    as long as it is live; it stops being live when the sequence completes
    or when it is cancelled (Stream Session: emitting must not continue
    after the disconnect is observed). [unsubscribes] counts the
    cancellation calls it has received. *)
Record Producer := {
  live : bool;
  unsubscribes : nat;
}.
Definition unsubscribe (p : Producer) : Producer :=
  {| live := false; unsubscribes := S (unsubscribes p) |}.
Definition complete (p : Producer) : Producer :=
  {| live := false; unsubscribes := unsubscribes p |}.

(** A stream session: what has been done on [res] so far, and the producer. *)
Record Session := {
  res : list ResOp;
  producer : Producer;
}.

(** Lines 102-104: [req.on("close", () => { result.unsubscribe(); })]. *)
Definition on_close (s : Session) : Session :=
  {| res := res s; producer := unsubscribe (producer s) |}.

Definition newline : string := String (Ascii.ascii_of_nat 10) EmptyString.

(** Lines 106-108: the subscriber,
    [(result) => { res.write(`data: ${JSON.stringify(result)}\n\n`); }]. *)
Definition on_result (value : ExecutionValue) (s : Session) : Session :=
  {| res := res s ++ [res_write ("data: " +:+ JSON_stringify value +:+ newline +:+ newline)];
     producer := producer s |}.

(** What happens to an open session: the underlying sequence yields a
    value, it completes, or the request emits "close". *)
Inductive SessionEvent :=
  | Ev_emit (value : ExecutionValue)
  | Ev_complete
  | Ev_close.

(** Modelled from the spec: [result.subscribe(subscriber)]. A value of the
    underlying sequence reaches the subscriber only while the producer is
    live. *)
Definition deliver (value : ExecutionValue)
    (subscriber : ExecutionValue → Session → Session) (s : Session) : Session :=
  if live (producer s) then subscriber value s else s.

Definition session_step (s : Session) (ev : SessionEvent) : Session :=
  match ev with
  | Ev_emit value => deliver value on_result s
  | Ev_complete => {| res := res s; producer := complete (producer s) |}
  | Ev_close => on_close s
  end.

Definition session_run (s : Session) (evs : list SessionEvent) : Session :=
  foldl session_step s evs.

(** How the handler leaves the response: it has performed some operations
    and is done with it, or it has opened a stream session. *)
Inductive Answer :=
  | Answered (ops : list ResOp)
  | Streaming (s : Session).

(** Lines 91-111: the three branches on [result.type]. *)
Definition respond (result : ProcessRequestResult) : Answer :=
  if String.eqb (type result) "RESPONSE" then
    Answered (map (λ h, res_setHeader (fst h) (snd h)) (headers result)
              ++ [res_status (status result); res_json (payload result)])
  else if String.eqb (type result) "PUSH" then
    Streaming {| res := [res_writeHead 200 [("Content-Type", "text/event-stream");
                                             ("Connection", "keep-alive");
                                             ("Cache-Control", "no-cache")]];
                 producer := {| live := true; unsubscribes := 0 |} |}
  else
    (* GraphQL JIT does not currently support @defer and @stream *)
    Answered [].

(** The operations performed on [res] in an answer. *)
Definition ops_of (a : Answer) : list ResOp :=
  match a with
  | Answered ops => ops
  | Streaming s => res s
  end.

Record Handled := {
  answer : Answer;
  locals : option Closure;
  world : World;
}.

(** The handler of [app.use("/graphql", ...)]. *)
Definition handle (helix : Helix) (request : HttpRequest) (w : World) : Handled :=
  if shouldRenderGraphiQL request then
    {| answer := Answered [res_send renderGraphiQL]; locals := None; world := w |}
  else
    let '(result, (l, w')) := run_request helix request w in
    {| answer := respond result; locals := Some l; world := w' |}.

(** Requests handled one after the other. *)
Fixpoint handle_all (requests : list (Helix * HttpRequest)) (w : World)
    : list Handled * World :=
  match requests with
  | [] => ([], w)
  | (helix, request) :: rest =>
      let h := handle helix request w in
      let '(hs, w') := handle_all rest (world h) in
      (h :: hs, w')
  end.

(** ** Vocabulary of the statements *)

(** One invocation of a callback, with its arguments. *)
Inductive Invocation :=
  | Invoke_parse (source : string) (options : ParseOptions)
  | Invoke_validate (s : GraphQLSchema) (documentAST : DocumentNode)
      (rules : ValidationRules) (ti : TypeInfo) (options : ValidateOptions)
  | Invoke_execute (s : GraphQLSchema) (documentAst : DocumentNode)
      (root : RootValue) (context : ContextValue)
      (variableValues : option VariableValues) (opName : option string).

(** The state a callback leaves behind, whether it returns or throws. *)
Definition invoke (cacheKey : string) (i : Invocation) (st : Closure * World)
    : Closure * World :=
  match i with
  | Invoke_parse source options => snd (parse_callback cacheKey source options st)
  | Invoke_validate s documentAST rules ti options =>
      snd (validate_callback cacheKey s documentAST rules ti options st)
  | Invoke_execute s documentAst root context variableValues opName =>
      snd (execute_callback cacheKey s documentAst root context variableValues opName st)
  end.

(** The plan the execute callback works with: the one it holds, or else the
    one it compiles. *)
Definition plan_of (l : Closure) (s : GraphQLSchema) (documentAst : DocumentNode)
    (opName : option string) : CompiledPlan :=
  default (compileQuery s documentAst opName) (compiledQuery l).

(** The state after the first half of the execute callback (lines 74-77). *)
Definition compiled (k : string) (s : GraphQLSchema) (documentAst : DocumentNode)
    (opName : option string) (st : Closure * World) : Closure * World :=
  match compiledQuery (fst st) with
  | Some _ => st
  | None =>
      let p := compileQuery s documentAst opName in
      ({| compiledQuery := Some p; document := document (fst st);
          validationErrors := validationErrors (fst st) |},
       cache_set k {| entry_compiledQuery := Some p;
                      entry_document := document (fst st);
                      entry_validationErrors := validationErrors (fst st) |}
         (record_call (Call_compileQuery s documentAst opName) (snd st)))
  end.

(** A field that was present is still present, with its value. *)
Definition kept {A} (before after : option A) : Prop :=
  ∀ x, before = Some x → after = Some x.

Definition fields_kept (before after : option CacheEntry) : Prop :=
  kept (before ≫= entry_compiledQuery) (after ≫= entry_compiledQuery) ∧
  kept (before ≫= entry_document) (after ≫= entry_document) ∧
  kept (before ≫= entry_validationErrors) (after ≫= entry_validationErrors).

(** An entry filled in the order of the stages: [{ document }], then
    [{ document, validationErrors }], then all three fields. *)
Definition staged (e : CacheEntry) : bool :=
  match entry_document e, entry_validationErrors e, entry_compiledQuery e with
  | _, None, None => true
  | Some _, Some _, _ => true
  | _, _, _ => false
  end.

Definition staged_at (key : string) (w : World) : Prop :=
  from_option (λ e, staged e = true) True (cache_get key w).

(** The request is a GraphQL request that carries the query text. *)
Definition asks (request : HttpRequest) (text : string) : Prop :=
  shouldRenderGraphiQL request = false ∧
  query (getGraphQLParameters request) = Some text.

(** The request holds exactly what is stored under the key, as after lines
    32-35, and what is stored was filled in stage order. *)
Definition synced (key : string) (st : Closure * World) : Prop :=
  st.1 = closure_of (cache_get key st.2) ∧ staged_at key st.2.

(** What the request holds covers what is stored under the key: a stored
    field is held by the request, with the same value. *)
Definition covers (key : string) (st : Closure * World) : Prop :=
  kept (cache_get key st.2 ≫= entry_compiledQuery) (compiledQuery st.1) ∧
  kept (cache_get key st.2 ≫= entry_document) (document st.1) ∧
  kept (cache_get key st.2 ≫= entry_validationErrors) (validationErrors st.1).

(** The artifacts of the first two stages that a request holds. *)
Definition artifacts (l : Closure) : option DocumentNode * option (list GraphQLError) :=
  (document l, validationErrors l).

Definition is_close (ev : SessionEvent) : bool :=
  match ev with Ev_close => true | _ => false end.

(** ** Vocabulary for stream sessions *)

(** The chunk that the subscriber writes for one value (line 107). *)
Definition sse_event (value : ExecutionValue) : string :=
  "data: " +:+ JSON_stringify value +:+ newline +:+ newline.

(** The values that a sequence yields before it first completes or the
    request first emits "close". *)
Fixpoint delivered (evs : list SessionEvent) : list ExecutionValue :=
  match evs with
  | Ev_emit value :: evs => value :: delivered evs
  | _ => []
  end.


(** The number of "close" events among some events. *)
Fixpoint closes (evs : list SessionEvent) : nat :=
  match evs with
  | [] => 0
  | ev :: evs => (if is_close ev then 1 else 0) + closes evs
  end.

End Server.

(** ** A small instance

    A schema with the single field [hello]; a document is the text it was
    parsed from, with a suffix when the parser keeps locations. It serves
    to run the handler on concrete requests. *)
Module Toy.

#[export] Instance carriers : Carriers := {|
  DocumentNode := string;
  ParseOptions := bool;                 (* noLocation *)
  GraphQLError := string;
  GraphQLSchema := unit;
  ValidationRules := list string;       (* the messages the rules raise *)
  TypeInfo := unit;
  ValidateOptions := unit;
  RootValue := unit;
  ContextValue := unit;
  VariableValues := list (string * string);
  ExecutionValue := string;
  HttpRequest := bool * (option string * option string);
|}.

Definition syntax_error : string := "Syntax Error: Expected Name, found <EOF>.".

Definition toy_parse (source : string) (noLocation : bool) : Completion string :=
  if String.eqb source "{" then Throw syntax_error
  else Normal (if noLocation then source else source +:+ " @1:1").

Definition toy_validate (_ : unit) (documentAST : string) (rules : list string)
    (_ _ : unit) : list string :=
  if String.prefix "{ hello }" documentAST then [] else rules.

Definition toy_query (_ _ : unit) (variableValues : list (string * string)) : string :=
  match variableValues with
  | [] => "{data:{hello:world}}"
  | (_, v) :: _ => "{data:{hello:" +:+ v +:+ "}}"
  end.

(** A plan whose execution yields an incremental result. *)
Definition toy_feed (_ _ : unit) (_ : list (string * string)) : string :=
  "[object AsyncGenerator]".

Definition toy_compileQuery (_ : unit) (documentAst : string)
    (operationName : option string) : CompiledPlan :=
  match operationName with
  | Some "Deferred" => ExecutionResult "{errors:[@defer is not supported]}"
  | Some "Feed" => CompiledQuery toy_feed
  | _ => CompiledQuery toy_query
  end.

#[export] Instance collaborators : Collaborators := {|
  parse := toy_parse;
  validate := toy_validate;
  compileQuery := toy_compileQuery;
  schema := ();
  empty_object := [];
  shouldRenderGraphiQL := λ request : HttpRequest, fst request;
  renderGraphiQL := "<html>GraphiQL</html>";
  getGraphQLParameters := λ request : HttpRequest,
    {| operationName := fst (snd request); query := snd (snd request);
       variables := None |};
  JSON_stringify := λ value : ExecutionValue, value;
|}.

Definition response (code : nat) (body : string) : ProcessRequestResult :=
  {| type := "RESPONSE"; headers := []; status := code; payload := body |}.

(** A [processRequest] that answers every failure with status 400 and
    classifies a value that starts with ["{data"] or ["{errors"] as a
    response, and any other as a multipart response. *)
Definition helix (noLocation : bool) (rules : list string) : Helix :=
  {| parseOptions := noLocation; validationRules := rules; typeInfo := ();
     validateOptions := (); rootValue := (); contextValue := ();
     report_missing_query := response 400 "Must provide query string.";
     report_parse_error := λ e, response 400 e;
     report_validation_errors := λ errors, response 400 (String.concat "; " errors);
     classify := λ value,
       if String.prefix "{" value then response 200 value
       else {| type := "MULTIPART_RESPONSE"; headers := []; status := 200;
               payload := value |} |}.

Definition post (operationName : option string) (text : string) : HttpRequest :=
  (false, (operationName, Some text)).

Definition fresh : World := startup.

Definition hello : string := "{ hello }".
Definition bogus : string := "{ bogus }".
Definition unknown_field : string := "Cannot query field bogus on type Query.".

(** The world after a first request for [bogus], which fails validation:
    the entry holds the document and the errors. *)
Definition after_bogus : World :=
  world (handle (helix true [unknown_field]) (post None bogus) fresh).

(** The object [{ document }] that the parse callback stores for [bogus]. *)
Definition only_document : CacheEntry :=
  {| entry_compiledQuery := None; entry_document := Some bogus;
     entry_validationErrors := None |}.

(** A world whose entry for [hello] holds the document only. *)
Definition parsed_hello : World :=
  cache_set hello {| entry_compiledQuery := None; entry_document := Some hello;
                     entry_validationErrors := None |} fresh.

(** The validate callback invoked for [hello]. *)
Definition validate_hello : Invocation :=
  @Invoke_validate carriers () hello [unknown_field] () ().

(** What a sequence does before and after the client disconnects. *)
Definition before_close : list SessionEvent :=
  [@Ev_emit carriers "a"; @Ev_emit carriers "b"].
Definition after_close : list SessionEvent :=
  [@Ev_emit carriers "c"; Ev_complete; @Ev_emit carriers "d"].

(** The document of [hello] parsed with locations. *)
Definition hello_located : string := "{ hello } @1:1".

(** Further requests for [hello], with other options, rules and operation
    names than the first. *)
Definition repeats : list (Helix * HttpRequest) :=
  [(helix true [], post (Some "Other") hello);
   (helix false [unknown_field], post None hello)].

(** The world after a first request for [hello]: the entry is complete. *)
Definition warm_hello : World :=
  world (handle (helix false [unknown_field]) (post None hello) fresh).

(** A whole session: two values, the disconnect, and what the sequence
    would still do. *)
Definition whole_session : list SessionEvent :=
  before_close ++ Ev_close :: after_close.

Definition multipart : ProcessRequestResult :=
  {| type := "MULTIPART_RESPONSE"; headers := []; status := 200;
     payload := "[object AsyncGenerator]" |}.

Definition push : ProcessRequestResult :=
  {| type := "PUSH"; headers := []; status := 200; payload := "" |}.

Definition opened : Session :=
  {| res := [res_writeHead 200 [("Content-Type", "text/event-stream");
                                ("Connection", "keep-alive");
                                ("Cache-Control", "no-cache")]];
     producer := {| live := true; unsubscribes := 0 |} |}.

End Toy.

(** * Properties *)

Section Callbacks.
Context `{Collaborators}.

(** ** The log *)

Lemma count_app p (l1 l2 : list Call) : count p (l1 ++ l2) = count p l1 + count p l2.
Proof. induction l1 as [|c l1 IH]; simpl; [done | rewrite IH; lia]. Qed.

(** ** What each callback does, case by case *)

Ltac run_callback :=
  unfold parse_callback, validate_callback, execute_callback,
    mbind, mret, M_bind, M_ret, read, call, store,
    assign_document, assign_validationErrors, assign_compiledQuery; cbn.

Lemma parse_callback_hit k source options l w d :
  document l = Some d →
  parse_callback k source options (l, w) = (Normal d, (l, w)).
Proof. intros Hd. run_callback. by rewrite Hd. Qed.

Lemma parse_callback_miss k source options l w d :
  document l = None →
  parse source options = Normal d →
  parse_callback k source options (l, w) =
    (Normal d,
     ({| compiledQuery := compiledQuery l; document := Some d;
         validationErrors := validationErrors l |},
      cache_set k {| entry_compiledQuery := None; entry_document := Some d;
                     entry_validationErrors := None |}
        (record_call (Call_parse source options) w))).
Proof. intros Hd Hp. run_callback. by rewrite Hd, Hp. Qed.

Lemma parse_callback_throw k source options l w e :
  document l = None →
  parse source options = Throw e →
  parse_callback k source options (l, w) =
    (Throw e, (l, record_call (Call_parse source options) w)).
Proof. intros Hd Hp. run_callback. by rewrite Hd, Hp. Qed.

Lemma validate_callback_hit k s documentAST rules ti options l w v :
  validationErrors l = Some v →
  validate_callback k s documentAST rules ti options (l, w) = (Normal v, (l, w)).
Proof. intros Hv. run_callback. by rewrite Hv. Qed.

Lemma validate_callback_miss k s documentAST rules ti options l w :
  validationErrors l = None →
  validate_callback k s documentAST rules ti options (l, w) =
    (Normal (validate s documentAST rules ti options),
     ({| compiledQuery := compiledQuery l; document := document l;
         validationErrors := Some (validate s documentAST rules ti options) |},
      cache_set k {| entry_compiledQuery := None; entry_document := document l;
                     entry_validationErrors :=
                       Some (validate s documentAST rules ti options) |}
        (record_call (Call_validate s documentAST rules ti options) w))).
Proof. intros Hv. run_callback. by rewrite Hv. Qed.

Lemma execute_callback_eq k s documentAst root context variableValues opName l w :
  execute_callback k s documentAst root context variableValues opName (l, w) =
    let st := compiled k s documentAst opName (l, w) in
    match plan_of l s documentAst opName with
    | CompiledQuery query =>
        (Normal (query root context (or_empty_object variableValues)),
         (fst st, record_call (Call_query root context (or_empty_object variableValues))
                    (snd st)))
    | ExecutionResult result => (Normal result, st)
    end.
Proof.
  unfold plan_of, compiled. run_callback.
  destruct (compiledQuery l) as [[query|result]|]; cbn; [done..|].
  by destruct (compileQuery s documentAst opName).
Qed.

Lemma compiled_plan k s documentAst opName l w :
  compiledQuery (fst (compiled k s documentAst opName (l, w))) =
    Some (plan_of l s documentAst opName).
Proof. unfold compiled, plan_of. cbn. by destruct (compiledQuery l) eqn:E; cbn. Qed.

Lemma compiled_count p k s documentAst opName st :
  p (Call_compileQuery s documentAst opName) = false →
  count p (calls (snd (compiled k s documentAst opName st))) = count p (calls (snd st)).
Proof.
  intros Hp. unfold compiled. destruct (compiledQuery (fst st)); [done|].
  cbn. rewrite count_app. simpl. rewrite Hp. lia.
Qed.

(** C6. The execute callback works with the plan it holds or else compiles.
    When that plan is an [ExecutionResult] (a compile error), the callback
    returns that very value and no [query] function is called; when it is a
    [CompiledQuery], it returns what the plan's [query] returns for the root
    value, the context and [variableValues || {}], called exactly once. *)
Theorem execute_callback_dispatch k s documentAst root context variableValues opName l w :
  let plan := plan_of l s documentAst opName in
  let '(r, (l', w')) :=
    execute_callback k s documentAst root context variableValues opName (l, w) in
  compiledQuery l' = Some plan ∧
  match plan with
  | ExecutionResult result =>
      isCompiledQuery plan = false ∧ r = Normal result ∧
      count is_query (calls w') = count is_query (calls w)
  | CompiledQuery query =>
      isCompiledQuery plan = true ∧
      r = Normal (query root context (or_empty_object variableValues)) ∧
      count is_query (calls w') = S (count is_query (calls w))
  end.
Proof.
  intros plan. rewrite execute_callback_eq. fold plan.
  pose proof (compiled_plan k s documentAst opName l w) as Hplan.
  pose proof (compiled_count is_query k s documentAst opName (l, w) eq_refl) as Hcount.
  fold plan in Hplan. cbn zeta.
  destruct (compiled k s documentAst opName (l, w)) as [l' w'] eqn:Hst.
  destruct plan as [query|result]; cbn in *.
  - repeat split; [done|]. rewrite count_app, Hcount. simpl. lia.
  - done.
Qed.

End Callbacks.

Section Answers.
Context `{Collaborators}.

(** C7. For a request that carries query text, the cache key is that text
    itself: the handler reads the entry stored under the text and hands the
    text to [processRequest] as the key of every write, and two texts give
    the same key exactly when they are the same string. (A request that
    carries no query has no text; [query || ""] gives it the key [""].) *)
Theorem cacheKey_verbatim helix request w text :
  query (getGraphQLParameters request) = Some text →
  cacheKey_of (Some text) = text ∧
  run_request helix request w =
    processRequest helix text (getGraphQLParameters request)
      (closure_of (cache_get text w), w) ∧
  (∀ text', cacheKey_of (Some text) = cacheKey_of (Some text') ↔ text = text') ∧
  cacheKey_of None = "".
Proof.
  intros Hq.
  assert (Hkey : ∀ t, cacheKey_of (Some t) = t).
  { intros t. unfold cacheKey_of. by destruct (String.eqb_spec t "") as [->|]. }
  split; [apply Hkey|]. split; [|split; [|done]].
  - unfold run_request. cbn zeta. by rewrite Hq, Hkey.
  - intros text'. by rewrite !Hkey.
Qed.

(** C1, as the code has it. For a result that is neither a "RESPONSE" nor a
    "PUSH", the handler performs no operation on the response at all: the
    branch is empty, nothing is reported to the client. *)
Theorem respond_unsupported result :
  type result ≠ "RESPONSE" →
  type result ≠ "PUSH" →
  respond result = Answered [] ∧ ops_of (respond result) = [].
Proof.
  intros Hresponse Hpush. unfold respond.
  destruct (String.eqb_spec (type result) "RESPONSE"); [done|].
  destruct (String.eqb_spec (type result) "PUSH"); done.
Qed.

(** ** Stream sessions *)

Lemma respond_streaming result s :
  respond result = Streaming s →
  producer s = {| live := true; unsubscribes := 0 |}.
Proof.
  unfold respond. do 2 (case_match; [try done|]); [|done].
  by intros [= <-].
Qed.

(** Events other than "close" leave the count of cancellations alone. *)
Lemma session_run_unsubscribes s evs :
  Forall (λ ev, is_close ev = false) evs →
  unsubscribes (producer (session_run s evs)) = unsubscribes (producer s).
Proof.
  intros Hevs. revert s. induction Hevs as [|ev evs Hev _ IH]; intros s; [done|].
  unfold session_run in *. cbn [foldl]. rewrite IH.
  destruct ev; cbn in *; [|done..].
  unfold deliver. by destruct (live (producer s)).
Qed.

(** A producer that is no longer live stays so, and nothing more is written. *)
Lemma session_run_not_live s evs :
  live (producer s) = false →
  live (producer (session_run s evs)) = false ∧
  res (session_run s evs) = res s.
Proof.
  revert s. induction evs as [|ev evs IH]; intros s Hlive; [done|].
  unfold session_run in *. cbn [foldl].
  destruct ev; cbn [session_step].
  - unfold deliver. rewrite Hlive. by apply IH.
  - by destruct (IH {| res := res s; producer := complete (producer s) |}).
  - by destruct (IH (on_close s)).
Qed.

(** C8. In the session opened for a "PUSH" result, when the request emits
    "close" once, whatever the sequence produced before and whatever it
    would produce afterwards, the producer receives exactly one
    [unsubscribe] call, and nothing is written to the response after the
    close: the response is as it was when the close was observed. *)
Theorem disconnect_cancels_once result s0 before after :
  respond result = Streaming s0 →
  Forall (λ ev, is_close ev = false) before →
  Forall (λ ev, is_close ev = false) after →
  let s1 := session_run s0 before in
  let s2 := session_step s1 Ev_close in
  let s3 := session_run s2 after in
  unsubscribes (producer s3) = 1 ∧ res s3 = res s1.
Proof.
  intros Hopen Hbefore Hafter s1 s2 s3.
  apply respond_streaming in Hopen.
  split.
  - unfold s3. rewrite session_run_unsubscribes by done.
    unfold s2. cbn. unfold s1. rewrite session_run_unsubscribes by done.
    by rewrite Hopen.
  - unfold s3. by destruct (session_run_not_live s2 after).
Qed.

(** C10. Whatever has happened in a session so far, natural completion of
    the sequence included, the "close" handler calls [unsubscribe]: the
    count of cancellation calls goes up by one, whether the producer is
    still live or not, and nothing is written to the response. *)
Theorem close_always_unsubscribes s history :
  let before := session_run s (history ++ [Ev_complete]) in
  let before' := session_run s history in
  live (producer before) = false ∧
  unsubscribes (producer (session_step before Ev_close)) =
    S (unsubscribes (producer before)) ∧
  unsubscribes (producer (session_step before' Ev_close)) =
    S (unsubscribes (producer before')) ∧
  res (session_step before Ev_close) = res before.
Proof.
  cbn zeta. unfold session_run. rewrite foldl_app. done.
Qed.

End Answers.

Section Caching.
Context `{Collaborators}.

Lemma cache_get_set k value w : cache_get k (cache_set k value w) = Some value.
Proof. unfold cache_get, cache_set. cbn. apply lookup_insert_eq. Qed.

Lemma kept_refl {A} (o : option A) : kept o o.
Proof. by intros x. Qed.

Lemma kept_None {A} (o : option A) : kept None o.
Proof. by intros x. Qed.

Lemma fields_kept_refl c : fields_kept c c.
Proof. repeat split; apply kept_refl. Qed.

Lemma kept_trans {A} (o1 o2 o3 : option A) : kept o1 o2 → kept o2 o3 → kept o1 o3.
Proof. intros H12 H23 x Hx. by apply H23, H12. Qed.

Lemma fields_kept_trans c1 c2 c3 :
  fields_kept c1 c2 → fields_kept c2 c3 → fields_kept c1 c3.
Proof.
  intros (?&?&?) (?&?&?). split_and!; by eapply kept_trans.
Qed.

Lemma fields_kept_absent c : fields_kept None c.
Proof. split_and!; apply kept_None. Qed.

(** ** The pipeline, stage by stage *)

Lemma cacheKey_of_text text : cacheKey_of (Some text) = text.
Proof. unfold cacheKey_of. by destruct (String.eqb_spec text "") as [->|]. Qed.

Lemma handle_asks helix request w text :
  asks request text →
  handle helix request w =
    let r := processRequest helix text (getGraphQLParameters request)
               (closure_of (cache_get text w), w) in
    {| answer := respond r.1; locals := Some r.2.1; world := r.2.2 |}.
Proof.
  intros [Hgraphiql Hquery]. unfold handle, run_request. rewrite Hgraphiql.
  cbn zeta. rewrite Hquery, cacheKey_of_text.
  by destruct (processRequest _ _ _ _) as [r [l w']].
Qed.

Lemma pipeline_eq helix k text params st :
  pipeline helix k text params st =
    match parse_callback k text (parseOptions helix) st with
    | (Throw e, st1) => (Throw e, st1)
    | (Normal documentAST, st1) =>
        match validate_callback k schema documentAST (validationRules helix)
                (typeInfo helix) (validateOptions helix) st1 with
        | (Throw e, st2) => (Throw e, st2)
        | (Normal [], st2) =>
            match execute_callback k schema documentAST (rootValue helix)
                    (contextValue helix) (variables params) (operationName params) st2 with
            | (Throw e, st3) => (Throw e, st3)
            | (Normal value, st3) => (Normal (classify helix value), st3)
            end
        | (Normal (e :: errors), st2) =>
            (Normal (report_validation_errors helix (e :: errors)), st2)
        end
    end.
Proof.
  unfold pipeline, mbind, M_bind.
  destruct (parse_callback _ _ _ _) as [[documentAST|e] st1]; [|done].
  destruct (validate_callback _ _ _ _ _ _ _) as [[[|e errors]|e] st2]; [|done..].
  by destruct (execute_callback _ _ _ _ _ _ _ _) as [[value|e] st3].
Qed.

(** When the parse stage returns, the request holds the document. *)
Lemma parse_callback_normal k source options l w d :
  (parse_callback k source options (l, w)).1 = Normal d →
  ∃ w1, parse_callback k source options (l, w) =
          (Normal d, ({| compiledQuery := compiledQuery l; document := Some d;
                         validationErrors := validationErrors l |}, w1)) ∧
        (∀ p, p (Call_parse source options) = false →
              count p (calls w1) = count p (calls w)).
Proof.
  destruct (document l) as [d'|] eqn:Hd.
  - rewrite (parse_callback_hit _ _ _ _ _ d') by done. intros [= ->].
    exists w. split; [|done]. destruct l; cbn in *. by rewrite Hd.
  - destruct (parse source options) as [d'|e] eqn:Hp.
    + rewrite (parse_callback_miss _ _ _ _ _ d') by done. intros [= ->].
      eexists. split; [done|]. intros p Hp'. cbn. rewrite count_app. cbn.
      rewrite Hp'. lia.
    + by rewrite (parse_callback_throw _ _ _ _ _ e).
Qed.

(** The execute callback always returns; it leaves the closure and the
    cache as its first half does, and adds at most one [query] call. *)
Lemma execute_callback_facts k s documentAst root context variableValues opName l w :
  ∃ value w',
    execute_callback k s documentAst root context variableValues opName (l, w) =
      (Normal value, ((compiled k s documentAst opName (l, w)).1, w')) ∧
    cache w' = cache (compiled k s documentAst opName (l, w)).2 ∧
    ∀ p, p (Call_query root context (or_empty_object variableValues)) = false →
         count p (calls w') = count p (calls (compiled k s documentAst opName (l, w)).2).
Proof.
  rewrite execute_callback_eq. cbn zeta.
  destruct (plan_of l s documentAst opName) as [query|result].
  - eexists _, _. split; [done|]. split; [done|].
    intros p Hp. cbn. rewrite count_app. cbn. rewrite Hp. lia.
  - exists result, (compiled k s documentAst opName (l, w)).2.
    split; [by destruct (compiled _ _ _ _ _)|]. done.
Qed.

(** ** Each write keeps what was stored *)

Lemma parse_callback_keeps k source options st :
  synced k st →
  fields_kept (cache_get k st.2) (cache_get k (parse_callback k source options st).2.2) ∧
  synced k (parse_callback k source options st).2.
Proof.
  destruct st as [l w]. intros [Hl Hstaged]. cbn [fst snd] in *. subst l.
  destruct (document (closure_of (cache_get k w))) as [d|] eqn:Hd.
  { rewrite (parse_callback_hit _ _ _ _ _ d) by done.
    split; [apply fields_kept_refl | done]. }
  destruct (parse source options) as [d|e] eqn:Hp.
  2:{ rewrite (parse_callback_throw _ _ _ _ _ e) by done.
      split; [apply fields_kept_refl | done]. }
  rewrite (parse_callback_miss _ _ _ _ _ d) by done.
  unfold synced, staged_at in *. cbn [fst snd]. rewrite cache_get_set.
  destruct (cache_get k w) as [e|]; [|by split; [apply fields_kept_absent|]].
  simpl in Hstaged. unfold staged in Hstaged. cbn in Hd. rewrite Hd in Hstaged.
  destruct (entry_validationErrors e) eqn:Hv; [done|].
  destruct (entry_compiledQuery e) eqn:Hc; [done|].
  split; [|by cbn; rewrite Hv, Hc].
  split_and!; cbn; rewrite ?Hd, ?Hv, ?Hc; apply kept_None.
Qed.

Lemma validate_callback_keeps k s documentAST rules ti options st :
  synced k st →
  fields_kept (cache_get k st.2)
    (cache_get k (validate_callback k s documentAST rules ti options st).2.2) ∧
  (is_Some (document st.1) →
   synced k (validate_callback k s documentAST rules ti options st).2).
Proof.
  destruct st as [l w]. intros [Hl Hstaged]. cbn [fst snd] in *. subst l.
  destruct (validationErrors (closure_of (cache_get k w))) as [v|] eqn:Hv.
  { rewrite (validate_callback_hit _ _ _ _ _ _ _ _ v) by done.
    split; [apply fields_kept_refl | done]. }
  rewrite validate_callback_miss by done.
  unfold synced, staged_at in *. cbn [fst snd]. rewrite cache_get_set.
  destruct (cache_get k w) as [e|].
  2:{ split; [apply fields_kept_absent|]. by intros [d [=]]. }
  simpl in Hstaged. unfold staged in Hstaged. cbn in Hv. rewrite Hv in Hstaged.
  destruct (entry_compiledQuery e) eqn:Hc; [by destruct (entry_document e)|].
  split.
  - split_and!; cbn; rewrite ?Hv, ?Hc; try apply kept_None. apply kept_refl.
  - cbn. intros [d Hd]. rewrite Hc, Hd. split; [done|]. by cbn.
Qed.

Lemma compiled_keeps k s documentAst opName st :
  synced k st →
  fields_kept (cache_get k st.2) (cache_get k (compiled k s documentAst opName st).2) ∧
  (is_Some (document st.1) → is_Some (validationErrors st.1) →
   synced k (compiled k s documentAst opName st)).
Proof.
  destruct st as [l w]. intros [Hl Hstaged]. cbn [fst snd] in *. subst l.
  unfold compiled. cbn [fst snd].
  destruct (compiledQuery (closure_of (cache_get k w))) as [p|] eqn:Hc; cbn [fst snd].
  { split; [apply fields_kept_refl | done]. }
  unfold synced, staged_at in *. cbn [fst snd]. rewrite cache_get_set.
  destruct (cache_get k w) as [e|].
  2:{ split; [apply fields_kept_absent|]. by intros [d [=]]. }
  cbn in Hc. split.
  - split_and!; cbn; rewrite ?Hc; try apply kept_None; apply kept_refl.
  - cbn. intros [d Hd] [v Hv]. rewrite Hd, Hv. split; [done|]. by cbn.
Qed.

Lemma execute_callback_keeps k s documentAst root context variableValues opName st :
  synced k st →
  fields_kept (cache_get k st.2)
    (cache_get k
       (execute_callback k s documentAst root context variableValues opName st).2.2) ∧
  (is_Some (document st.1) → is_Some (validationErrors st.1) →
   synced k (execute_callback k s documentAst root context variableValues opName st).2).
Proof.
  destruct st as [l w]. intros Hsynced.
  destruct (execute_callback_facts k s documentAst root context variableValues opName l w)
    as (value & w' & -> & Hcache & _).
  destruct (compiled_keeps k s documentAst opName (l, w) Hsynced) as [Hkept Hnext].
  unfold synced, staged_at, cache_get in *. cbn [fst snd] in *. rewrite Hcache.
  split; [done|]. intros Hd Hv. by apply Hnext.
Qed.

(** C2, as the code has it. A write replaces the stored object, and each
    callback writes the fields its request holds. So for a request whose
    variables hold what is stored under the key (as lines 32-35 read it),
    and a stored entry filled in stage order, whichever callback runs,
    with whatever arguments, every field that was stored before is still
    stored afterwards, with its value. *)
Theorem writes_keep_fields k i l w :
  l = closure_of (cache_get k w) →
  staged_at k w →
  fields_kept (cache_get k w) (cache_get k (snd (invoke k i (l, w)))).
Proof.
  intros Hl Hstaged.
  assert (Hsynced : synced k (l, w)) by done.
  destruct i as [source options | s doc rules ti options | s doc root ctx vars op];
    cbn [invoke].
  - by destruct (parse_callback_keeps k source options (l, w) Hsynced).
  - by destruct (validate_callback_keeps k s doc rules ti options (l, w) Hsynced).
  - by destruct (execute_callback_keeps k s doc root ctx vars op (l, w) Hsynced).
Qed.

(** ** The log only grows *)

Lemma parse_callback_calls k source options l w :
  document l = None →
  calls (parse_callback k source options (l, w)).2.2 =
    calls w ++ [Call_parse source options] ∧
  ((∃ e, parse source options = Throw e) →
   cache (parse_callback k source options (l, w)).2.2 = cache w).
Proof.
  intros Hd. destruct (parse source options) as [d|e] eqn:Hp.
  - rewrite (parse_callback_miss _ _ _ _ _ d) by done. split; [done|]. by intros [e [=]].
  - by rewrite (parse_callback_throw _ _ _ _ _ e).
Qed.

Lemma validate_callback_extends k s documentAST rules ti options st :
  ∃ new, calls (validate_callback k s documentAST rules ti options st).2.2 =
           calls st.2 ++ new.
Proof.
  destruct st as [l w]. destruct (validationErrors l) as [v|] eqn:Hv.
  - rewrite (validate_callback_hit _ _ _ _ _ _ _ _ v) by done. exists []. by rewrite app_nil_r.
  - rewrite validate_callback_miss by done. by eexists.
Qed.

Lemma execute_callback_extends k s documentAst root context variableValues opName st :
  ∃ new, calls (execute_callback k s documentAst root context variableValues opName st).2.2 =
           calls st.2 ++ new.
Proof.
  destruct st as [l w]. rewrite execute_callback_eq. cbn zeta.
  assert (∃ new, calls (compiled k s documentAst opName (l, w)).2 = calls w ++ new)
    as [new Hnew].
  { unfold compiled. cbn [fst snd]. destruct (compiledQuery l); cbn; [|by eexists].
    exists []. by rewrite app_nil_r. }
  destruct (plan_of l s documentAst opName); cbn; rewrite Hnew.
  - rewrite <- app_assoc. by eexists.
  - by eexists.
Qed.

(** What the pipeline adds to the log starts with what its parse stage adds. *)
Lemma pipeline_calls helix k text params st :
  ∃ rest, calls (pipeline helix k text params st).2.2 =
            calls (parse_callback k text (parseOptions helix) st).2.2 ++ rest.
Proof.
  rewrite pipeline_eq.
  destruct (parse_callback _ _ _ _) as [[documentAST|e] st1]; cbn [snd].
  2:{ exists []. by rewrite app_nil_r. }
  destruct (validate_callback_extends k schema documentAST (validationRules helix)
              (typeInfo helix) (validateOptions helix) st1) as [new1 Hnew1].
  destruct (validate_callback _ _ _ _ _ _ _) as [[[|e errors]|e] st2];
    cbn [snd] in *; [|by eexists..].
  destruct (execute_callback_extends k schema documentAST (rootValue helix)
              (contextValue helix) (variables params) (operationName params) st2)
    as [new2 Hnew2].
  destruct (execute_callback _ _ _ _ _ _ _ _) as [[value|e] st3]; cbn [snd] in *;
    rewrite Hnew2, Hnew1, <- app_assoc; by eexists.
Qed.

Lemma processRequest_text helix k params text st :
  query params = Some text →
  processRequest helix k params st =
    match pipeline helix k text params st with
    | (Normal result, st') => (result, st')
    | (Throw e, st') => (report_parse_error helix e, st')
    end.
Proof. intros Hq. unfold processRequest. by rewrite Hq. Qed.

Lemma processRequest_state helix k params text st :
  query params = Some text →
  (processRequest helix k params st).2 = (pipeline helix k text params st).2.
Proof.
  intros Hq. rewrite (processRequest_text _ _ _ text) by done.
  by destruct (pipeline _ _ _ _ _) as [[result|e] st'].
Qed.

(** C4. When the parser is invoked for a query text (no document is stored
    for it) and fails, the request leaves the cache exactly as it was, so
    no entry is created, and its only call is the parser's; the next request
    with the same text, whatever its options, starts by invoking the parser
    again. *)
Theorem failed_parse_is_retried helix1 request1 helix2 request2 w text e :
  asks request1 text →
  asks request2 text →
  cache_get text w ≫= entry_document = None →
  parse text (parseOptions helix1) = Throw e →
  let h1 := handle helix1 request1 w in
  let h2 := handle helix2 request2 (world h1) in
  cache (world h1) = cache w ∧
  calls (world h1) = calls w ++ [Call_parse text (parseOptions helix1)] ∧
  answer h1 = respond (report_parse_error helix1 e) ∧
  ∃ rest, calls (world h2) =
            calls (world h1) ++ Call_parse text (parseOptions helix2) :: rest.
Proof.
  intros Hasks1 Hasks2 Hnone Hthrow h1 h2.
  assert (Hh1 : h1 = {| answer := respond (report_parse_error helix1 e);
                        locals := Some (closure_of (cache_get text w));
                        world := record_call (Call_parse text (parseOptions helix1)) w |}).
  { unfold h1. rewrite (handle_asks _ _ _ text) by done. cbn zeta.
    rewrite (processRequest_text _ _ _ text) by apply Hasks1.
    rewrite pipeline_eq, (parse_callback_throw _ _ _ _ _ e); done. }
  split_and!; try by rewrite Hh1.
  unfold h2. rewrite (handle_asks _ _ _ text) by done. cbn zeta. cbn [world].
  rewrite (processRequest_state _ _ _ text) by apply Hasks2.
  destruct (pipeline_calls helix2 text text (getGraphQLParameters request2)
              (closure_of (cache_get text (world h1)), world h1)) as [rest Hrest].
  exists rest. rewrite Hrest.
  destruct (parse_callback_calls text text (parseOptions helix2)
              (closure_of (cache_get text (world h1))) (world h1)) as [-> _].
  { by rewrite Hh1. }
  by rewrite <- app_assoc.
Qed.

(** C5. When the validator is invoked for a query text (no validation
    result is stored for it) and yields one or more errors, the request
    reports them and stores them; the next request with the same text,
    whatever its rules and options, makes no call at all, so the validator
    is not invoked again, and it holds and reports the very same errors. *)
Theorem validation_errors_are_cached helix1 request1 helix2 request2 w text d e errors :
  asks request1 text →
  asks request2 text →
  cache_get text w ≫= entry_validationErrors = None →
  (parse_callback text text (parseOptions helix1)
     (closure_of (cache_get text w), w)).1 = Normal d →
  validate schema d (validationRules helix1) (typeInfo helix1)
    (validateOptions helix1) = e :: errors →
  let h1 := handle helix1 request1 w in
  let h2 := handle helix2 request2 (world h1) in
  count is_validate (calls (world h1)) = S (count is_validate (calls w)) ∧
  locals h1 ≫= validationErrors = Some (e :: errors) ∧
  answer h1 = respond (report_validation_errors helix1 (e :: errors)) ∧
  cache_get text (world h1) ≫= entry_validationErrors = Some (e :: errors) ∧
  calls (world h2) = calls (world h1) ∧
  locals h2 ≫= validationErrors = Some (e :: errors) ∧
  answer h2 = respond (report_validation_errors helix2 (e :: errors)).
Proof.
  intros Hasks1 Hasks2 Hnone Hparse Hvalidate h1 h2.
  destruct (parse_callback_normal _ _ _ _ _ _ Hparse) as (w1 & Hparsed & Hcount).
  assert (Hh1 : h1 =
    {| answer := respond (report_validation_errors helix1 (e :: errors));
       locals := Some {| compiledQuery := compiledQuery (closure_of (cache_get text w));
                         document := Some d; validationErrors := Some (e :: errors) |};
       world := cache_set text
                  {| entry_compiledQuery := None; entry_document := Some d;
                     entry_validationErrors := Some (e :: errors) |}
                  (record_call (Call_validate schema d (validationRules helix1)
                                  (typeInfo helix1) (validateOptions helix1)) w1) |}).
  { unfold h1. rewrite (handle_asks _ _ _ text) by done. cbn zeta.
    rewrite (processRequest_text _ _ _ text) by apply Hasks1.
    rewrite pipeline_eq, Hparsed, validate_callback_miss by done.
    by rewrite Hvalidate. }
  assert (Hh2 : h2 =
    {| answer := respond (report_validation_errors helix2 (e :: errors));
       locals := Some (closure_of (cache_get text (world h1)));
       world := world h1 |}).
  { unfold h2. rewrite (handle_asks _ _ _ text) by done. cbn zeta.
    rewrite (processRequest_text _ _ _ text) by apply Hasks2.
    rewrite Hh1. cbn [world]. rewrite cache_get_set.
    by rewrite pipeline_eq, (parse_callback_hit _ _ _ _ _ d),
      (validate_callback_hit _ _ _ _ _ _ _ _ (e :: errors)). }
  rewrite Hh2. rewrite Hh1. cbn [world locals answer]. rewrite cache_get_set.
  split_and!; try done.
  cbn. rewrite count_app, Hcount by done. cbn. lia.
Qed.

(** ** What a request holds covers what it leaves in the cache *)

Lemma closure_of_covers k w : covers k (closure_of (cache_get k w), w).
Proof. unfold covers. cbn. split_and!; apply kept_refl. Qed.

Lemma parse_callback_covers k source options st :
  covers k st → covers k (parse_callback k source options st).2.
Proof.
  destruct st as [l w]. intros Hcovers.
  destruct (document l) as [d|] eqn:Hd.
  { by rewrite (parse_callback_hit _ _ _ _ _ d). }
  destruct (parse source options) as [d|e] eqn:Hp.
  - rewrite (parse_callback_miss _ _ _ _ _ d) by done.
    unfold covers. cbn [fst snd]. rewrite cache_get_set. cbn.
    split_and!; [apply kept_None | apply kept_refl | apply kept_None].
  - by rewrite (parse_callback_throw _ _ _ _ _ e).
Qed.

Lemma validate_callback_covers k s documentAST rules ti options st :
  covers k st → covers k (validate_callback k s documentAST rules ti options st).2.
Proof.
  destruct st as [l w]. intros Hcovers.
  destruct (validationErrors l) as [v|] eqn:Hv.
  { by rewrite (validate_callback_hit _ _ _ _ _ _ _ _ v). }
  rewrite validate_callback_miss by done.
  unfold covers. cbn [fst snd]. rewrite cache_get_set. cbn.
  split_and!; [apply kept_None | apply kept_refl | apply kept_refl].
Qed.

Lemma compiled_covers k s documentAst opName st :
  covers k st → covers k (compiled k s documentAst opName st).
Proof.
  destruct st as [l w]. intros Hcovers. unfold compiled. cbn [fst snd].
  destruct (compiledQuery l); [done|].
  unfold covers. cbn [fst snd]. rewrite cache_get_set. cbn.
  split_and!; apply kept_refl.
Qed.

Lemma execute_callback_covers k s documentAst root context variableValues opName st :
  covers k st →
  covers k (execute_callback k s documentAst root context variableValues opName st).2.
Proof.
  destruct st as [l w]. intros Hcovers.
  destruct (execute_callback_facts k s documentAst root context variableValues opName l w)
    as (value & w' & -> & Hcache & _).
  apply (compiled_covers k s documentAst opName) in Hcovers.
  unfold covers, cache_get in *. cbn [fst snd] in *. by rewrite Hcache.
Qed.

Lemma pipeline_covers helix k text params st :
  covers k st → covers k (pipeline helix k text params st).2.
Proof.
  intros Hcovers. rewrite pipeline_eq.
  apply (parse_callback_covers k text (parseOptions helix)) in Hcovers.
  destruct (parse_callback _ _ _ _) as [[documentAST|e] st1]; cbn [snd] in *; [|done].
  apply (validate_callback_covers k schema documentAST (validationRules helix)
           (typeInfo helix) (validateOptions helix)) in Hcovers.
  destruct (validate_callback _ _ _ _ _ _ _) as [[[|e errors]|e] st2];
    cbn [snd] in *; [|done..].
  apply (execute_callback_covers k schema documentAST (rootValue helix)
           (contextValue helix) (variables params) (operationName params)) in Hcovers.
  by destruct (execute_callback _ _ _ _ _ _ _ _) as [[value|e] st3].
Qed.

Lemma compiled_artifacts k s documentAst opName st :
  artifacts (compiled k s documentAst opName st).1 = artifacts st.1.
Proof. unfold compiled. by destruct (compiledQuery st.1). Qed.

(** C9. Take a request for a query text and suppose the next request finds
    a document and a validation result stored for that text. Then these are
    the artifacts the first request held; in the next request the parse and
    validate callbacks return them for every choice of their arguments,
    without a call and without touching the closure or the cache; and
    whatever the parse options, rules, type info and options of the next
    request are, it ends up holding the same two artifacts and invokes
    neither the parser nor the validator. *)
Theorem cache_hit_ignores_arguments helix1 request1 w text d v :
  asks request1 text →
  let h1 := handle helix1 request1 w in
  let st := (closure_of (cache_get text (world h1)), world h1) in
  cache_get text (world h1) ≫= entry_document = Some d →
  cache_get text (world h1) ≫= entry_validationErrors = Some v →
  artifacts <$> locals h1 = Some (Some d, Some v) ∧
  (∀ source options, parse_callback text source options st = (Normal d, st)) ∧
  (∀ s documentAST rules ti options,
     validate_callback text s documentAST rules ti options st = (Normal v, st)) ∧
  ∀ helix2 request2,
    asks request2 text →
    let h2 := handle helix2 request2 (world h1) in
    artifacts <$> locals h2 = Some (Some d, Some v) ∧
    count is_parse (calls (world h2)) = count is_parse (calls (world h1)) ∧
    count is_validate (calls (world h2)) = count is_validate (calls (world h1)).
Proof.
  intros Hasks1 h1 st Hd Hv.
  assert (Hst : document st.1 = Some d ∧ validationErrors st.1 = Some v) by done.
  destruct Hst as [Hstd Hstv].
  split_and!.
  - unfold h1 in *. rewrite (handle_asks _ _ _ text) in * by done.
    cbn zeta in *. cbn [world locals] in *.
    pose proof (pipeline_covers helix1 text text (getGraphQLParameters request1) _
                  (closure_of_covers text w)) as (_ & Hcd & Hcv).
    rewrite <- (processRequest_state helix1 text (getGraphQLParameters request1) text)
      in Hcd, Hcv by apply Hasks1.
    cbn. unfold artifacts. by rewrite (Hcd d), (Hcv v).
  - intros source options. by apply parse_callback_hit.
  - intros s documentAST rules ti options. by apply validate_callback_hit.
  - intros helix2 request2 Hasks2 h2. unfold h2.
    rewrite (handle_asks _ _ _ text) by done. cbn zeta. cbn [world locals].
    rewrite (processRequest_state _ _ _ text) by apply Hasks2.
    subst st. cbn [fst snd] in Hstd, Hstv. rewrite pipeline_eq.
    rewrite (parse_callback_hit _ _ _ _ _ d), (validate_callback_hit _ _ _ _ _ _ _ _ v)
      by done.
    destruct v as [|e errors]; [|by cbn; unfold artifacts; rewrite Hstd, Hstv].
    match goal with |- context [execute_callback ?k ?s ?doc ?r ?c ?vs ?op (?l, ?w)] =>
      destruct (execute_callback_facts k s doc r c vs op l w)
        as (value & w' & -> & _ & Hcount)
    end.
    cbn [fst snd]. rewrite !Hcount, !compiled_count by done.
    split; [|done]. cbn. rewrite compiled_artifacts. unfold artifacts.
    cbn [fst]. by rewrite Hstd, Hstv.
Qed.

(** ** A fully cached text *)

Lemma handle_cached helix request w text plan d :
  asks request text →
  cache_get text w = Some {| entry_compiledQuery := Some plan; entry_document := Some d;
                             entry_validationErrors := Some [] |} →
  let h := handle helix request w in
  locals h ≫= compiledQuery = Some plan ∧
  cache (world h) = cache w ∧
  ∀ p, (∀ root context variableValues, p (Call_query root context variableValues) = false) →
       count p (calls (world h)) = count p (calls w).
Proof.
  intros Hasks Hcached h. unfold h.
  rewrite (handle_asks _ _ _ text) by done. cbn zeta. cbn [world locals].
  rewrite (processRequest_state _ _ _ text) by apply Hasks.
  rewrite Hcached, pipeline_eq.
  rewrite (parse_callback_hit _ _ _ _ _ d), (validate_callback_hit _ _ _ _ _ _ _ _ [])
    by done.
  match goal with |- context [execute_callback ?k ?s ?doc ?r ?c ?vs ?op (?l, ?w)] =>
    destruct (execute_callback_facts k s doc r c vs op l w)
      as (value & w' & -> & Hcache & Hcount)
  end.
  cbn [fst snd]. unfold compiled in *. cbn in *.
  split_and!; [done..|]. intros p Hp. by apply Hcount.
Qed.

Lemma handle_all_cached requests w text plan d :
  Forall (λ hr, asks hr.2 text) requests →
  cache_get text w = Some {| entry_compiledQuery := Some plan; entry_document := Some d;
                             entry_validationErrors := Some [] |} →
  Forall (λ h, locals h ≫= compiledQuery = Some plan) (handle_all requests w).1 ∧
  length (handle_all requests w).1 = length requests ∧
  ∀ p, (∀ root context variableValues, p (Call_query root context variableValues) = false) →
       count p (calls (handle_all requests w).2) = count p (calls w).
Proof.
  intros Hasks. revert w.
  induction Hasks as [|[helix request] requests Hhead _ IH]; intros w Hcached; [done|].
  cbn [handle_all].
  destruct (handle_cached helix request w text plan d Hhead Hcached)
    as (Hplan & Hcache & Hcount).
  destruct (IH (world (handle helix request w))) as (IHplan & IHlength & IHcount).
  { unfold cache_get in *. by rewrite Hcache. }
  destruct (handle_all requests (world (handle helix request w))) as [hs w'].
  cbn [fst snd] in *. split_and!.
  - by constructor.
  - cbn. by rewrite IHlength.
  - intros p Hp. by rewrite IHcount, Hcount.
Qed.

(** C3. Start from a cache with no entry for a query text, and handle any
    number of requests for that text one after the other, the first of
    which parses and validates it without errors. Over all these requests
    the parser, the validator and the compiler are each invoked exactly
    once, and every request ends up holding the same plan: the one compiled
    for the first request (executable or not). *)
Theorem stages_run_once helix1 request1 rest w text d :
  asks request1 text →
  Forall (λ hr, asks hr.2 text) rest →
  cache_get text w = None →
  parse text (parseOptions helix1) = Normal d →
  validate schema d (validationRules helix1) (typeInfo helix1)
    (validateOptions helix1) = [] →
  let plan := compileQuery schema d (operationName (getGraphQLParameters request1)) in
  let run := handle_all ((helix1, request1) :: rest) w in
  count is_parse (calls run.2) = S (count is_parse (calls w)) ∧
  count is_validate (calls run.2) = S (count is_validate (calls w)) ∧
  count is_compileQuery (calls run.2) = S (count is_compileQuery (calls w)) ∧
  length run.1 = S (length rest) ∧
  Forall (λ h, locals h ≫= compiledQuery = Some plan) run.1.
Proof.
  intros Hasks1 Hrest Hnone Hparse Hvalidate plan run.
  set (h1 := handle helix1 request1 w).
  assert (Hfirst :
    locals h1 ≫= compiledQuery = Some plan ∧
    cache_get text (world h1) =
      Some {| entry_compiledQuery := Some plan; entry_document := Some d;
              entry_validationErrors := Some [] |} ∧
    ∀ p, (∀ root context variableValues, p (Call_query root context variableValues) = false) →
         count p (calls (world h1)) =
           count p (calls w ++ [Call_parse text (parseOptions helix1);
                                Call_validate schema d (validationRules helix1)
                                  (typeInfo helix1) (validateOptions helix1);
                                Call_compileQuery schema d
                                  (operationName (getGraphQLParameters request1))])).
  { unfold h1. rewrite (handle_asks _ _ _ text) by done. cbn zeta. cbn [world locals].
    rewrite (processRequest_state _ _ _ text) by apply Hasks1.
    rewrite Hnone, pipeline_eq.
    rewrite (parse_callback_miss _ _ _ _ _ d), validate_callback_miss by done.
    rewrite Hvalidate.
    match goal with |- context [execute_callback ?k ?s ?doc ?r ?c ?vs ?op (?l, ?w)] =>
      destruct (execute_callback_facts k s doc r c vs op l w)
        as (value & w' & -> & Hcache & Hcount)
    end.
    cbn [fst snd]. unfold compiled in *. cbn in *.
    split_and!; [done| |].
    - unfold cache_get. rewrite Hcache. apply lookup_insert_eq.
    - intros p Hp. rewrite Hcount by done. by rewrite <- !app_assoc. }
  destruct Hfirst as (Hplan & Hcached & Hcount).
  destruct (handle_all_cached rest (world h1) text plan d Hrest Hcached)
    as (Hplans & Hlength & Hcounts).
  unfold run. cbn [handle_all]. fold h1.
  destruct (handle_all rest (world h1)) as [hs w'].
  cbn [fst snd] in *.
  rewrite !Hcounts, !Hcount, !count_app by done. cbn.
  split_and!; [lia..| by rewrite Hlength | by constructor].
Qed.

End Caching.

(** * The cache over a run of requests

    The hypotheses of [writes_keep_fields] hold at every write of a request
    that is handled on its own: entries stay filled in stage order, and a
    handled request removes no stored field of any entry. *)

Section Invariant.
Context `{Collaborators}.

Lemma validate_callback_normal k s documentAST rules ti options l w :
  ∃ v w', validate_callback k s documentAST rules ti options (l, w) =
            (Normal v, ({| compiledQuery := compiledQuery l; document := document l;
                           validationErrors := Some v |}, w')).
Proof.
  destruct (validationErrors l) as [v|] eqn:Hv.
  - rewrite (validate_callback_hit _ _ _ _ _ _ _ _ v) by done.
    exists v, w. destruct l; cbn in *. by rewrite Hv.
  - rewrite validate_callback_miss by done. by eexists _, _.
Qed.

Lemma pipeline_keeps helix k text params st :
  synced k st →
  fields_kept (cache_get k st.2) (cache_get k (pipeline helix k text params st).2.2) ∧
  staged_at k (pipeline helix k text params st).2.2.
Proof.
  destruct st as [l w]. intros Hsynced. rewrite pipeline_eq.
  destruct (parse_callback_keeps k text (parseOptions helix) (l, w) Hsynced)
    as [Hkept1 Hsynced1].
  destruct (parse_callback k text (parseOptions helix) (l, w)) as [[d|e] st1] eqn:Hparse;
    cbn [fst snd] in *.
  2:{ split; [done | apply Hsynced1]. }
  destruct (parse_callback_normal k text (parseOptions helix) l w d) as (w1 & Heq & _).
  { by rewrite Hparse. }
  rewrite Hparse in Heq. injection Heq as ->.
  destruct (validate_callback_keeps k schema d (validationRules helix) (typeInfo helix)
              (validateOptions helix) _ Hsynced1) as [Hkept2 Hsynced2].
  specialize (Hsynced2 (mk_is_Some _ _ eq_refl)).
  destruct (validate_callback_normal k schema d (validationRules helix) (typeInfo helix)
              (validateOptions helix)
              {| compiledQuery := compiledQuery l; document := Some d;
                 validationErrors := validationErrors l |} w1) as (v & w2 & Hvalidate).
  rewrite Hvalidate in *. cbn [fst snd] in *.
  assert (Hkept12 := fields_kept_trans _ _ _ Hkept1 Hkept2).
  destruct v as [|e errors]; [|split; [done | apply Hsynced2]].
  match goal with |- context [execute_callback ?k ?s ?doc ?r ?c ?vs ?op ?st] =>
    destruct (execute_callback_keeps k s doc r c vs op st Hsynced2) as [Hkept3 Hsynced3];
    destruct (execute_callback k s doc r c vs op st) as [[value|e] st3]
  end; cbn [fst snd] in *.
  all: split; [by eapply fields_kept_trans | by apply Hsynced3].
Qed.

(** The callbacks write under their own key only. *)
Lemma cache_get_set_ne k k' value w : k' ≠ k → cache_get k' (cache_set k value w) = cache_get k' w.
Proof. intros Hne. unfold cache_get, cache_set. cbn. by apply lookup_insert_ne. Qed.

Lemma pipeline_other_key helix k text params st k' :
  k' ≠ k →
  cache_get k' (pipeline helix k text params st).2.2 = cache_get k' st.2.
Proof.
  intros Hne. destruct st as [l w]. rewrite pipeline_eq.
  assert (Hparse : cache_get k' (parse_callback k text (parseOptions helix) (l, w)).2.2 =
                   cache_get k' w).
  { destruct (document l) as [d|] eqn:Hd.
    { by rewrite (parse_callback_hit _ _ _ _ _ d). }
    destruct (parse text (parseOptions helix)) as [d|e] eqn:Hp.
    - rewrite (parse_callback_miss _ _ _ _ _ d) by done. cbn [snd].
      by rewrite cache_get_set_ne.
    - by rewrite (parse_callback_throw _ _ _ _ _ e). }
  destruct (parse_callback _ _ _ _) as [[d|e] [l1 w1]]; cbn [fst snd] in *; [|done].
  assert (Hvalidate :
    cache_get k' (validate_callback k schema d (validationRules helix) (typeInfo helix)
                    (validateOptions helix) (l1, w1)).2.2 = cache_get k' w1).
  { destruct (validationErrors l1) as [v|] eqn:Hv.
    { by rewrite (validate_callback_hit _ _ _ _ _ _ _ _ v). }
    rewrite validate_callback_miss by done. cbn [snd]. by rewrite cache_get_set_ne. }
  destruct (validate_callback _ _ _ _ _ _ _) as [[[|e errors]|e] [l2 w2]];
    cbn [fst snd] in *; [|congruence..].
  match goal with |- context [execute_callback ?k ?s ?doc ?r ?c ?vs ?op (?l, ?w)] =>
    destruct (execute_callback_facts k s doc r c vs op l w)
      as (value & w' & -> & Hcache & _)
  end.
  cbn [fst snd]. unfold cache_get at 1. rewrite Hcache.
  transitivity (cache_get k' w2); [|congruence].
  unfold compiled. cbn [fst snd]. destruct (compiledQuery l2); [done|].
  cbn [snd]. by etrans; [apply (cache_get_set_ne k k')|].
Qed.

(** Handling a request keeps every entry filled in stage order and removes
    no field of any entry. *)
Lemma handle_keeps helix request w :
  (∀ k, staged_at k w) →
  ∀ k, fields_kept (cache_get k w) (cache_get k (world (handle helix request w))) ∧
       staged_at k (world (handle helix request w)).
Proof.
  intros Hstaged k. unfold handle.
  destruct (shouldRenderGraphiQL request); [by split; [apply fields_kept_refl|]|].
  unfold run_request. cbn zeta.
  set (params := getGraphQLParameters request).
  set (key := cacheKey_of (query params)).
  assert (Hprocess :
    fields_kept (cache_get k w)
      (cache_get k (processRequest helix key params (closure_of (cache_get key w), w)).2.2) ∧
    staged_at k (processRequest helix key params (closure_of (cache_get key w), w)).2.2).
  { destruct (query params) as [text|] eqn:Hquery.
    2:{ unfold processRequest. rewrite Hquery. by split; [apply fields_kept_refl|]. }
    rewrite (processRequest_state _ _ _ text) by done.
    destruct (decide (k = key)) as [->|Hne].
    - apply (pipeline_keeps helix key text params (closure_of (cache_get key w), w)).
      split; [done | apply Hstaged].
    - unfold staged_at. rewrite (pipeline_other_key _ _ _ _ _ k) by done.
      split; [apply fields_kept_refl | apply Hstaged]. }
  by destruct (processRequest _ _ _ _) as [result [l w']].
Qed.

(** From the empty cache on, every entry is filled in stage order. *)
Lemma handle_all_staged requests w :
  (∀ k, staged_at k w) →
  ∀ k, fields_kept (cache_get k w) (cache_get k (handle_all requests w).2) ∧
       staged_at k (handle_all requests w).2.
Proof.
  revert w. induction requests as [|[helix request] requests IH]; intros w Hstaged k.
  { by split; [apply fields_kept_refl|]. }
  cbn [handle_all].
  pose proof (handle_keeps helix request w Hstaged) as Hhead.
  specialize (IH (world (handle helix request w)) (λ k, proj2 (Hhead k)) k).
  destruct (handle_all requests (world (handle helix request w))) as [hs w'].
  cbn [snd] in *. split; [|apply IH].
  eapply fields_kept_trans; [apply Hhead | apply IH].
Qed.

Lemma startup_staged requests k : staged_at k (handle_all requests startup).2.
Proof. by apply handle_all_staged. Qed.

End Invariant.

(** * Further properties of the stream session *)

Section Streams.
Context `{Collaborators}.

Lemma string_length_app (s1 s2 : string) :
  String.length (s1 +:+ s2) = String.length s1 + String.length s2.
Proof. induction s1 as [|c s1 IH]; simpl; [done | by f_equal]. Qed.

Lemma string_app_inj_r (s1 s2 t : string) : s1 +:+ t = s2 +:+ t → s1 = s2.
Proof.
  revert s2. induction s1 as [|c1 s1 IH]; intros [|c2 s2] Heq; simpl in Heq.
  - done.
  - apply (f_equal String.length) in Heq.
    rewrite !string_length_app in Heq. simpl in Heq. lia.
  - apply (f_equal String.length) in Heq.
    rewrite !string_length_app in Heq. simpl in Heq. lia.
  - injection Heq as -> Heq. by rewrite (IH s2).
Qed.

(** X1. The chunk written for a value is the text ["data: "], the JSON text
    of the value and a blank line, so two values are written as the same
    chunk exactly when they have the same JSON text: a client recovers the
    JSON text from the chunk. *)
Theorem sse_event_inj value1 value2 :
  sse_event value1 = sse_event value2 ↔ JSON_stringify value1 = JSON_stringify value2.
Proof.
  unfold sse_event. split; [|by intros ->].
  intros Heq. apply (inj (String.app "data: ")) in Heq.
  by apply string_app_inj_r in Heq.
Qed.

Lemma session_run_live s evs :
  live (producer s) = true →
  res (session_run s evs) =
    res s ++ map (λ value, res_write (sse_event value)) (delivered evs).
Proof.
  revert s. induction evs as [|ev evs IH]; intros s Hlive.
  { cbn. by rewrite app_nil_r. }
  unfold session_run in *. cbn [foldl].
  destruct ev as [value| |]; cbn [session_step delivered map].
  - unfold deliver. rewrite Hlive. rewrite IH by done. cbn.
    by rewrite <- app_assoc.
  - rewrite app_nil_r.
    by destruct (session_run_not_live
                   {| res := res s; producer := complete (producer s) |} evs).
  - rewrite app_nil_r. by destruct (session_run_not_live (on_close s) evs).
Qed.

(** X2. What a stream session writes, for every course of events: the head
    of the event stream first, then one chunk for each value that the
    sequence yields before it first completes or the client first
    disconnects, in the order of the sequence, and nothing else. *)
Theorem session_writes result s0 evs :
  respond result = Streaming s0 →
  res (session_run s0 evs) =
    res_writeHead 200 [("Content-Type", "text/event-stream");
                       ("Connection", "keep-alive"); ("Cache-Control", "no-cache")]
    :: map (λ value, res_write (sse_event value)) (delivered evs).
Proof.
  intros Hopen. pose proof (respond_streaming _ _ Hopen) as Hproducer.
  rewrite session_run_live by by rewrite Hproducer.
  unfold respond in Hopen. do 2 (case_match; [try done|]); [|done].
  by injection Hopen as <-.
Qed.

(** X3. Every "close" event is passed on to the producer: after any course
    of events the producer has received as many [unsubscribe] calls as
    there were "close" events; the handler does not filter repeated ones. *)
Theorem every_close_unsubscribes s evs :
  unsubscribes (producer (session_run s evs)) = unsubscribes (producer s) + closes evs.
Proof.
  revert s. induction evs as [|ev evs IH]; intros s; [cbn; lia|].
  unfold session_run in *. cbn [foldl closes]. rewrite IH.
  destruct ev; cbn; [|lia..].
  unfold deliver. destruct (live (producer s)); cbn; lia.
Qed.

End Streams.

(** * Further properties of the handler and its cache *)

Section Requests.
Context `{Collaborators}.

(** ** The calls of each callback *)

Lemma parse_callback_cases k source options l w :
  (∃ e, parse source options = Throw e ∧ document l = None ∧
        parse_callback k source options (l, w) =
          (Throw e, (l, record_call (Call_parse source options) w))) ∨
  (∃ d w1,
     parse_callback k source options (l, w) =
       (Normal d, ({| compiledQuery := compiledQuery l; document := Some d;
                      validationErrors := validationErrors l |}, w1)) ∧
     ∀ p, count p (calls w1) =
          count p (calls w) +
          match document l with
          | Some _ => 0
          | None => if p (Call_parse source options) then 1 else 0
          end).
Proof.
  destruct (document l) as [d|] eqn:Hd.
  - right. exists d, w. rewrite (parse_callback_hit _ _ _ _ _ d) by done.
    split; [|intros p; lia]. destruct l; cbn in *. by rewrite Hd.
  - destruct (parse source options) as [d|e] eqn:Hp.
    + right. eexists d, _. rewrite (parse_callback_miss _ _ _ _ _ d) by done.
      split; [done|]. intros p. cbn. rewrite count_app. cbn. lia.
    + left. exists e. by rewrite (parse_callback_throw _ _ _ _ _ e).
Qed.

Lemma validate_callback_cases k s documentAST rules ti options l w :
  ∃ v w2,
    validate_callback k s documentAST rules ti options (l, w) =
      (Normal v, ({| compiledQuery := compiledQuery l; document := document l;
                     validationErrors := Some v |}, w2)) ∧
    ∀ p, count p (calls w2) =
         count p (calls w) +
         match validationErrors l with
         | Some _ => 0
         | None => if p (Call_validate s documentAST rules ti options) then 1 else 0
         end.
Proof.
  destruct (validationErrors l) as [v|] eqn:Hv.
  - exists v, w. rewrite (validate_callback_hit _ _ _ _ _ _ _ _ v) by done.
    split; [|intros p; lia]. destruct l; cbn in *. by rewrite Hv.
  - eexists _, _. rewrite validate_callback_miss by done.
    split; [done|]. intros p. cbn. rewrite count_app. cbn. lia.
Qed.

Lemma execute_callback_cases k s documentAst root context variableValues opName l w :
  ∃ w3,
    execute_callback k s documentAst root context variableValues opName (l, w) =
      (Normal match plan_of l s documentAst opName with
              | CompiledQuery query => query root context (or_empty_object variableValues)
              | ExecutionResult result => result
              end,
       ({| compiledQuery := Some (plan_of l s documentAst opName);
           document := document l; validationErrors := validationErrors l |}, w3)) ∧
    ∀ p, count p (calls w3) =
         count p (calls w) +
         match compiledQuery l with
         | Some _ => 0
         | None => if p (Call_compileQuery s documentAst opName) then 1 else 0
         end +
         match plan_of l s documentAst opName with
         | CompiledQuery _ =>
             if p (Call_query root context (or_empty_object variableValues)) then 1 else 0
         | ExecutionResult _ => 0
         end.
Proof.
  destruct l as [held doc errors].
  rewrite execute_callback_eq. cbn zeta. unfold compiled, plan_of. cbn.
  destruct held as [[query|result]|];
    [| |destruct (compileQuery s documentAst opName) as [query|result]];
    eexists; (split; [reflexivity|]); intros p; cbn; rewrite ?count_app; cbn; lia.
Qed.


(** X5. In every state that the server reaches from its start by handling
    requests one after the other, handling one more request removes no
    stored field of any entry and changes the value of none, and every
    entry stays filled in stage order: the document first, then the
    validation result, then the plan. *)
Theorem cache_only_grows requests helix request k :
  let w := (handle_all requests startup).2 in
  fields_kept (cache_get k w) (cache_get k (world (handle helix request w))) ∧
  staged_at k (world (handle helix request w)).
Proof.
  intros w. apply handle_keeps. intros k'. apply startup_staged.
Qed.

(** X6. One request invokes each collaborator at most once: the parser
    exactly when no document is stored for the text, the validator and the
    compiler not at all when a validation result, respectively a plan, is
    stored, and a plan's [query] at most once. *)
Theorem collaborators_at_most_once helix request w text :
  asks request text →
  let stored := cache_get text w in
  let h := handle helix request w in
  ∃ parses validates compiles queries,
    count is_parse (calls (world h)) = count is_parse (calls w) + parses ∧
    count is_validate (calls (world h)) = count is_validate (calls w) + validates ∧
    count is_compileQuery (calls (world h)) = count is_compileQuery (calls w) + compiles ∧
    count is_query (calls (world h)) = count is_query (calls w) + queries ∧
    parses = match stored ≫= entry_document with Some _ => 0 | None => 1 end ∧
    validates ≤ 1 ∧ compiles ≤ 1 ∧ queries ≤ 1 ∧
    (is_Some (stored ≫= entry_validationErrors) → validates = 0) ∧
    (is_Some (stored ≫= entry_compiledQuery) → compiles = 0).
Proof.
  intros Hasks stored h. unfold h.
  rewrite (handle_asks _ _ _ text) by done. cbn zeta. cbn [world].
  rewrite (processRequest_state _ _ _ text) by apply Hasks.
  fold stored. rewrite pipeline_eq.
  destruct (parse_callback_cases text text (parseOptions helix) (closure_of stored) w)
    as [(e & _ & Hd & ->) | (d & w1 & -> & Hcount1)].
  { cbn in Hd. cbn [snd calls record_call]. rewrite Hd, !count_app. cbn.
    exists 1, 0, 0, 0. split_and!; try lia; by intros _. }
  match goal with |- context [validate_callback ?k ?s ?doc ?r ?t ?o (?l, ?w)] =>
    destruct (validate_callback_cases k s doc r t o l w) as (v & w2 & -> & Hcount2)
  end.
  cbn [compiledQuery document validationErrors] in Hcount2.
  cbn [document closure_of] in Hcount1.
  set (parses := match stored ≫= entry_document with Some _ => 0 | None => 1 end).
  set (validates := match stored ≫= entry_validationErrors with Some _ => 0 | None => 1 end).
  destruct v as [|e errors].
  2:{ cbn [snd]. rewrite !Hcount2, !Hcount1. cbn.
      exists parses, validates, 0, 0. subst parses validates.
      destruct (stored ≫= entry_document), (stored ≫= entry_validationErrors);
        split_and!; try lia; try done; by intros [? [=]]. }
  match goal with |- context [execute_callback ?k ?s ?doc ?r ?c ?vs ?op (?l, ?w)] =>
    destruct (execute_callback_cases k s doc r c vs op l w) as (w3 & -> & Hcount3)
  end.
  set (plan := plan_of _ _ _ _) in *.
  cbn [compiledQuery document validationErrors] in Hcount3.
  cbn [snd]. rewrite !Hcount3, !Hcount2, !Hcount1.
  cbn [is_parse is_validate is_compileQuery is_query closure_of validationErrors
       compiledQuery].
  exists parses, validates,
    (match stored ≫= entry_compiledQuery with Some _ => 0 | None => 1 end),
    (match plan with CompiledQuery _ => 1 | ExecutionResult _ => 0 end).
  subst parses validates.
  destruct (stored ≫= entry_document), (stored ≫= entry_validationErrors),
    (stored ≫= entry_compiledQuery), plan;
    split_and!; try lia; try done; by intros [? [=]].
Qed.

(** X7. A request for a text whose entry is complete and valid does no
    parsing, validation or compilation and leaves the cache alone. With a
    stored [CompiledQuery] its only call is the plan's [query], on its own
    root value, context and [variables || {}], whose result it answers
    with; with a stored [ExecutionResult] it makes no call and answers with
    that result. *)
Theorem warm_request helix request w text plan d :
  asks request text →
  cache_get text w = Some {| entry_compiledQuery := Some plan; entry_document := Some d;
                             entry_validationErrors := Some [] |} →
  let params := getGraphQLParameters request in
  let h := handle helix request w in
  let variableValues := or_empty_object (variables params) in
  cache (world h) = cache w ∧
  match plan with
  | CompiledQuery query =>
      calls (world h) =
        calls w ++ [Call_query (rootValue helix) (contextValue helix) variableValues] ∧
      answer h =
        respond (classify helix (query (rootValue helix) (contextValue helix) variableValues))
  | ExecutionResult result =>
      calls (world h) = calls w ∧ answer h = respond (classify helix result)
  end.
Proof.
  intros Hasks Hcached params h variableValues. unfold h.
  rewrite (handle_asks _ _ _ text) by done. cbn zeta.
  rewrite (processRequest_text _ _ _ text) by apply Hasks.
  rewrite Hcached, pipeline_eq.
  rewrite (parse_callback_hit _ _ _ _ _ d), (validate_callback_hit _ _ _ _ _ _ _ _ [])
    by done.
  rewrite execute_callback_eq. unfold compiled, plan_of. cbn.
  by destruct plan.
Qed.

(** X8. The first request for a text that parses and validates fills the
    entry with the document, the empty validation result and the plan
    compiled for the request's operation name; it calls the parser, the
    validator and the compiler in this order, then the plan's [query] if
    the plan has one, and answers with the result of that call, or with
    the plan itself if it is an [ExecutionResult]. *)
Theorem cold_request helix request w text d :
  asks request text →
  cache_get text w = None →
  parse text (parseOptions helix) = Normal d →
  validate schema d (validationRules helix) (typeInfo helix) (validateOptions helix) = [] →
  let params := getGraphQLParameters request in
  let plan := compileQuery schema d (operationName params) in
  let variableValues := or_empty_object (variables params) in
  let h := handle helix request w in
  cache_get text (world h) =
    Some {| entry_compiledQuery := Some plan; entry_document := Some d;
            entry_validationErrors := Some [] |} ∧
  calls (world h) =
    calls w ++
    [Call_parse text (parseOptions helix);
     Call_validate schema d (validationRules helix) (typeInfo helix) (validateOptions helix);
     Call_compileQuery schema d (operationName params)] ++
    match plan with
    | CompiledQuery _ => [Call_query (rootValue helix) (contextValue helix) variableValues]
    | ExecutionResult _ => []
    end ∧
  answer h =
    respond (classify helix
               match plan with
               | CompiledQuery query =>
                   query (rootValue helix) (contextValue helix) variableValues
               | ExecutionResult result => result
               end).
Proof.
  intros Hasks Hnone Hparse Hvalidate params plan variableValues h. unfold h.
  rewrite (handle_asks _ _ _ text) by done. cbn zeta.
  rewrite (processRequest_text _ _ _ text) by apply Hasks.
  rewrite Hnone, pipeline_eq.
  rewrite (parse_callback_miss _ _ _ _ _ d), validate_callback_miss by done.
  rewrite Hvalidate, execute_callback_eq. unfold compiled, plan_of. cbn.
  fold params. fold plan.
  destruct plan; cbn; unfold cache_get; cbn; rewrite lookup_insert_eq;
    split_and!; try done; by rewrite <- !app_assoc.
Qed.

(** ** Handling a request again *)

Lemma pipeline_synced helix k text params st :
  synced k st → synced k (pipeline helix k text params st).2.
Proof.
  destruct st as [l w]. intros Hsynced. rewrite pipeline_eq.
  destruct (parse_callback_keeps k text (parseOptions helix) (l, w) Hsynced)
    as [_ Hsynced1].
  destruct (parse_callback_cases k text (parseOptions helix) l w)
    as [(e & _ & _ & Heq) | (d & w1 & Heq & _)]; rewrite Heq in *; cbn [snd] in *; [done|].
  match goal with |- context [validate_callback ?k ?s ?doc ?r ?t ?o (?l, ?w)] =>
    destruct (validate_callback_keeps k s doc r t o (l, w) Hsynced1) as [_ Hsynced2];
    destruct (validate_callback_cases k s doc r t o l w) as (v & w2 & Heq2 & _)
  end.
  specialize (Hsynced2 (mk_is_Some _ _ eq_refl)).
  rewrite Heq2 in *. cbn [fst snd compiledQuery document validationErrors] in *.
  destruct v as [|e errors]; [|done].
  match goal with |- context [execute_callback ?k ?s ?doc ?r ?c ?vs ?op (?l, ?w)] =>
    destruct (execute_callback_keeps k s doc r c vs op (l, w) Hsynced2) as [_ Hsynced3];
    destruct (execute_callback_cases k s doc r c vs op l w) as (w3 & Heq3 & _)
  end.
  rewrite Heq3 in *. cbn [fst snd] in *. apply Hsynced3; by eexists.
Qed.

(** Run again from the closure it leaves, the pipeline returns the same
    result, leaves the closure as it is and writes nothing. *)
Lemma pipeline_rerun helix k text params l w w' :
  ∃ w'',
    pipeline helix k text params ((pipeline helix k text params (l, w)).2.1, w') =
      ((pipeline helix k text params (l, w)).1,
       ((pipeline helix k text params (l, w)).2.1, w'')) ∧
    cache w'' = cache w'.
Proof.
  rewrite (pipeline_eq _ _ _ _ (l, w)).
  destruct (parse_callback_cases k text (parseOptions helix) l w)
    as [(e & Hp & Hd & ->) | (d & w1 & -> & _)].
  { cbn [fst snd]. rewrite pipeline_eq, (parse_callback_throw _ _ _ _ _ e) by done.
    by eexists. }
  match goal with |- context [validate_callback ?k ?s ?doc ?r ?t ?o (?l, ?w)] =>
    destruct (validate_callback_cases k s doc r t o l w) as (v & w2 & -> & _)
  end.
  cbn [compiledQuery document validationErrors].
  destruct v as [|e errors].
  2:{ cbn [fst snd].
      rewrite pipeline_eq, (parse_callback_hit _ _ _ _ _ d),
        (validate_callback_hit _ _ _ _ _ _ _ _ (e :: errors)) by done.
      by eexists. }
  match goal with |- context [execute_callback ?k ?s ?doc ?r ?c ?vs ?op (?l, ?w)] =>
    destruct (execute_callback_cases k s doc r c vs op l w) as (w3 & -> & _)
  end.
  cbn [fst snd compiledQuery document validationErrors].
  set (plan := plan_of _ _ _ _).
  rewrite pipeline_eq, (parse_callback_hit _ _ _ _ _ d),
    (validate_callback_hit _ _ _ _ _ _ _ _ []) by done.
  rewrite execute_callback_eq. unfold compiled. cbn [fst snd compiledQuery].
  assert (Hplan : ∀ doc v s d' op,
            plan_of {| compiledQuery := Some plan; document := doc;
                       validationErrors := v |} s d' op = plan) by done.
  rewrite Hplan. destruct plan; by eexists.
Qed.

(** X9. In every state that the server reaches from its start by handling
    requests one after the other, handling a request and then the same
    request again gives the same answer both times, and the second time
    the request holds the same artifacts and writes nothing to the cache. *)
Theorem repeated_request_same_answer requests helix request :
  let w := (handle_all requests startup).2 in
  let h1 := handle helix request w in
  let h2 := handle helix request (world h1) in
  answer h2 = answer h1 ∧ locals h2 = locals h1 ∧ cache (world h2) = cache (world h1).
Proof.
  intros w h1 h2.
  assert (Hstaged : ∀ k, staged_at k w) by (intros k; apply startup_staged).
  unfold h2, h1, handle. destruct (shouldRenderGraphiQL request); [done|].
  unfold run_request. cbn zeta.
  set (params := getGraphQLParameters request).
  set (key := cacheKey_of (query params)).
  destruct (query params) as [text|] eqn:Hquery.
  2:{ unfold processRequest. rewrite Hquery. cbn. by rewrite ?Hquery. }
  pose proof (processRequest_text helix key params text
                (closure_of (cache_get key w), w) Hquery) as Hfirst.
  assert (Hsynced : synced key (closure_of (cache_get key w), w)) by (by split).
  apply (pipeline_synced helix key text params) in Hsynced.
  destruct (pipeline_rerun helix key text params (closure_of (cache_get key w)) w
              (pipeline helix key text params (closure_of (cache_get key w), w)).2.2)
    as (w'' & Hrerun & Hcache).
  destruct (pipeline helix key text params (closure_of (cache_get key w), w))
    as [r [l1 w1]].
  destruct Hsynced as [Hl1 _]. cbn [fst snd] in *.
  assert (Hnext : processRequest helix key params (closure_of (cache_get key w1), w1) =
                  (match r with
                   | Normal result => result
                   | Throw e => report_parse_error helix e
                   end, (l1, w''))).
  { rewrite (processRequest_text _ _ _ text _ Hquery), <- Hl1, Hrerun. by destruct r. }
  destruct r as [result|e]; rewrite Hfirst; cbn [world]; rewrite Hnext; by cbn.
Qed.

(** X10. Within one request a callback computes at most once. Once the
    parse callback has returned a document, or the validate callback a
    result, invoking it again with any arguments returns the same value
    and changes nothing; and once the execute callback has run, running it
    again with any arguments works with the same plan, compiles nothing and
    writes nothing to the cache. *)
Theorem callbacks_memoise k st :
  (∀ source options source' options' d st1,
     parse_callback k source options st = (Normal d, st1) →
     parse_callback k source' options' st1 = (Normal d, st1)) ∧
  (∀ s documentAST rules ti options s' documentAST' rules' ti' options' v st1,
     validate_callback k s documentAST rules ti options st = (Normal v, st1) →
     validate_callback k s' documentAST' rules' ti' options' st1 = (Normal v, st1)) ∧
  (∀ s documentAst root context variableValues opName
     s' documentAst' root' context' variableValues' opName' r st1,
     execute_callback k s documentAst root context variableValues opName st = (r, st1) →
     let st2 := (execute_callback k s' documentAst' root' context' variableValues'
                   opName' st1).2 in
     compiledQuery st1.1 = Some (plan_of st.1 s documentAst opName) ∧
     st2.1 = st1.1 ∧ cache st2.2 = cache st1.2 ∧
     count is_compileQuery (calls st2.2) = count is_compileQuery (calls st1.2)).
Proof.
  destruct st as [l w]. split_and!.
  - intros source options source' options' d st1 Hfirst.
    destruct (parse_callback_cases k source options l w)
      as [(e & _ & _ & Heq) | (d' & w1 & Heq & _)]; rewrite Heq in Hfirst; [done|].
    injection Hfirst as <- <-. by apply parse_callback_hit.
  - intros s documentAST rules ti options s' documentAST' rules' ti' options' v st1 Hfirst.
    destruct (validate_callback_cases k s documentAST rules ti options l w)
      as (v' & w2 & Heq & _). rewrite Heq in Hfirst.
    injection Hfirst as <- <-. by apply validate_callback_hit.
  - intros s documentAst root context variableValues opName
      s' documentAst' root' context' variableValues' opName' r st1 Hfirst st2.
    destruct (execute_callback_cases k s documentAst root context variableValues opName l w)
      as (w3 & Heq & _). rewrite Heq in Hfirst. injection Hfirst as <- <-.
    subst st2. set (plan := plan_of (l, w).1 s documentAst opName).
    cbn [fst] in plan. fold plan.
    rewrite execute_callback_eq. unfold compiled. cbn [fst snd compiledQuery].
    assert (Hplan : ∀ doc v s d' op,
              plan_of {| compiledQuery := Some plan; document := doc;
                         validationErrors := v |} s d' op = plan) by done.
    rewrite Hplan.
    destruct plan; cbn; rewrite ?count_app; cbn; split_and!; try done; lia.
Qed.


End Requests.

(** * The statements at concrete requests *)

Section Concrete.
Import Toy.

(** C1, as the claim states it, fails: a request whose result is a
    multipart response, neither "RESPONSE" nor "PUSH", is answered with no
    operation on the response at all. *)
Lemma unsupported_is_dropped :
  let request := post (Some "Feed") hello in
  let result := (run_request (helix true []) request fresh).1 in
  let h := handle (helix true []) request fresh in
  result = multipart ∧ type result ≠ "RESPONSE" ∧ type result ≠ "PUSH" ∧
  answer h = respond result ∧ ¬ ∃ op, op ∈ ops_of (answer h).
Proof.
  cbn zeta. split_and!; [reflexivity | discriminate | discriminate | reflexivity |].
  intros [op Hop]. vm_compute in Hop. by apply elem_of_nil in Hop.
Qed.

Lemma respond_unsupported_witness :
  type multipart ≠ "RESPONSE" ∧ type multipart ≠ "PUSH" ∧
  respond multipart = Answered [] ∧ ops_of (respond multipart) = [].
Proof.
  split; [discriminate|]. split; [discriminate|].
  apply (respond_unsupported multipart); discriminate.
Defined.

(** C2, as the claim states it, fails: the entry for a text holds a
    document and validation errors; the parse callback of a request that
    holds no document writes [{ document }], which replaces the entry, and
    the validation errors, which the write does not mention, are gone. *)
Lemma write_drops_unmentioned_field :
  let w := after_bogus in
  let w' := (parse_callback bogus bogus true (closure_of None, w)).2.2 in
  cache w' = cache (cache_set bogus only_document w) ∧
  entry_validationErrors only_document = None ∧
  cache_get bogus w ≫= entry_validationErrors = Some [unknown_field] ∧
  cache_get bogus w' ≫= entry_validationErrors = None ∧
  ¬ fields_kept (cache_get bogus w) (cache_get bogus w').
Proof.
  cbn zeta. split_and!; [reflexivity..|].
  intros (_ & _ & Hkept). by specialize (Hkept [unknown_field] eq_refl).
Qed.

Lemma writes_keep_fields_witness :
  let l := closure_of (cache_get hello parsed_hello) in
  l = closure_of (cache_get hello parsed_hello) ∧ staged_at hello parsed_hello ∧
  fields_kept (cache_get hello parsed_hello)
    (cache_get hello (invoke hello validate_hello (l, parsed_hello)).2).
Proof.
  cbn zeta. split; [reflexivity|]. split; [reflexivity|].
  apply (writes_keep_fields hello validate_hello
           (closure_of (cache_get hello parsed_hello)) parsed_hello);
    reflexivity.
Defined.

Lemma cacheKey_verbatim_witness :
  query (getGraphQLParameters (post None hello)) = Some hello ∧
  cacheKey_of (Some hello) = hello ∧
  run_request (helix true []) (post None hello) fresh =
    processRequest (helix true []) hello (getGraphQLParameters (post None hello))
      (closure_of (cache_get hello fresh), fresh) ∧
  (∀ text', cacheKey_of (Some hello) = cacheKey_of (Some text') ↔ hello = text') ∧
  cacheKey_of None = "".
Proof.
  split; [reflexivity|].
  apply (cacheKey_verbatim (helix true []) (post None hello) fresh hello).
  reflexivity.
Defined.

Lemma disconnect_cancels_once_witness :
  let s1 := session_run opened before_close in
  let s3 := session_run (session_step s1 Ev_close) after_close in
  respond push = Streaming opened ∧
  Forall (λ ev, is_close ev = false) before_close ∧
  Forall (λ ev, is_close ev = false) after_close ∧
  unsubscribes (producer s3) = 1 ∧ res s3 = res s1.
Proof.
  cbn zeta. split; [reflexivity|].
  split; [repeat constructor|]. split; [repeat constructor|].
  apply (disconnect_cancels_once push opened before_close after_close);
    [reflexivity | repeat constructor..].
Defined.

Lemma stages_run_once_witness :
  let helix1 := helix false [unknown_field] in
  let request1 := post None hello in
  let run := handle_all ((helix1, request1) :: repeats) fresh in
  asks request1 hello ∧
  Forall (λ hr, asks hr.2 hello) repeats ∧
  cache_get hello fresh = None ∧
  parse hello (parseOptions helix1) = Normal hello_located ∧
  validate schema hello_located (validationRules helix1) (typeInfo helix1)
    (validateOptions helix1) = [] ∧
  count is_parse (calls run.2) = 1 ∧
  count is_validate (calls run.2) = 1 ∧
  count is_compileQuery (calls run.2) = 1 ∧
  length run.1 = 3 ∧
  Forall (λ h, locals h ≫= compiledQuery = Some (CompiledQuery toy_query)) run.1.
Proof.
  cbn zeta.
  assert (Hasks : asks (post None hello) hello) by (split; reflexivity).
  assert (Hrepeats : Forall (λ hr, asks hr.2 hello) repeats)
    by (repeat constructor).
  split; [exact Hasks|]. split; [exact Hrepeats|]. do 3 (split; [reflexivity|]).
  exact (stages_run_once (helix false [unknown_field]) (post None hello) repeats fresh
           hello hello_located Hasks Hrepeats eq_refl eq_refl eq_refl).
Defined.

Lemma failed_parse_is_retried_witness :
  let h1 := handle (helix true []) (post None "{") fresh in
  let h2 := handle (helix false []) (post (Some "Other") "{") (world h1) in
  asks (post None "{") "{" ∧
  asks (post (Some "Other") "{") "{" ∧
  cache_get "{" fresh ≫= entry_document = None ∧
  parse "{" (parseOptions (helix true [])) = Throw syntax_error ∧
  cache (world h1) = cache fresh ∧
  calls (world h1) = calls fresh ++ [Call_parse "{" true] ∧
  answer h1 = respond (report_parse_error (helix true []) syntax_error) ∧
  ∃ rest, calls (world h2) = calls (world h1) ++ Call_parse "{" false :: rest.
Proof.
  cbn zeta.
  assert (Hasks1 : asks (post None "{") "{") by (split; reflexivity).
  assert (Hasks2 : asks (post (Some "Other") "{") "{") by (split; reflexivity).
  split; [exact Hasks1|]. split; [exact Hasks2|]. do 2 (split; [reflexivity|]).
  exact (failed_parse_is_retried (helix true []) (post None "{") (helix false [])
           (post (Some "Other") "{") fresh "{" syntax_error Hasks1 Hasks2 eq_refl eq_refl).
Defined.

Lemma validation_errors_are_cached_witness :
  let helix1 := helix true [unknown_field] in
  let helix2 := helix false [] in
  let h1 := handle helix1 (post None bogus) fresh in
  let h2 := handle helix2 (post (Some "Other") bogus) (world h1) in
  asks (post None bogus) bogus ∧
  asks (post (Some "Other") bogus) bogus ∧
  cache_get bogus fresh ≫= entry_validationErrors = None ∧
  (parse_callback bogus bogus (parseOptions helix1)
     (closure_of (cache_get bogus fresh), fresh)).1 = Normal bogus ∧
  validate schema bogus (validationRules helix1) (typeInfo helix1)
    (validateOptions helix1) = [unknown_field] ∧
  count is_validate (calls (world h1)) = 1 ∧
  locals h1 ≫= validationErrors = Some [unknown_field] ∧
  answer h1 = respond (report_validation_errors helix1 [unknown_field]) ∧
  cache_get bogus (world h1) ≫= entry_validationErrors = Some [unknown_field] ∧
  calls (world h2) = calls (world h1) ∧
  locals h2 ≫= validationErrors = Some [unknown_field] ∧
  answer h2 = respond (report_validation_errors helix2 [unknown_field]).
Proof.
  cbn zeta.
  assert (Hasks1 : asks (post None bogus) bogus) by (split; reflexivity).
  assert (Hasks2 : asks (post (Some "Other") bogus) bogus) by (split; reflexivity).
  split; [exact Hasks1|]. split; [exact Hasks2|]. do 3 (split; [reflexivity|]).
  exact (validation_errors_are_cached (helix true [unknown_field]) (post None bogus)
           (helix false []) (post (Some "Other") bogus) fresh bogus bogus
           unknown_field [] Hasks1 Hasks2 eq_refl eq_refl eq_refl).
Defined.

Lemma cache_hit_ignores_arguments_witness :
  let h1 := handle (helix true [unknown_field]) (post None hello) fresh in
  let st := (closure_of (cache_get hello (world h1)), world h1) in
  asks (post None hello) hello ∧
  cache_get hello (world h1) ≫= entry_document = Some hello ∧
  cache_get hello (world h1) ≫= entry_validationErrors = Some [] ∧
  artifacts <$> locals h1 = Some (Some hello, Some []) ∧
  (∀ source options, parse_callback hello source options st = (Normal hello, st)) ∧
  (∀ s documentAST rules ti options,
     validate_callback hello s documentAST rules ti options st = (Normal [], st)) ∧
  ∀ helix2 request2,
    asks request2 hello →
    let h2 := handle helix2 request2 (world h1) in
    artifacts <$> locals h2 = Some (Some hello, Some []) ∧
    count is_parse (calls (world h2)) = count is_parse (calls (world h1)) ∧
    count is_validate (calls (world h2)) = count is_validate (calls (world h1)).
Proof.
  cbn zeta.
  assert (Hasks : asks (post None hello) hello) by (split; reflexivity).
  split; [exact Hasks|]. do 2 (split; [reflexivity|]).
  exact (cache_hit_ignores_arguments (helix true [unknown_field]) (post None hello)
           fresh hello hello [] Hasks eq_refl eq_refl).
Defined.

End Concrete.

Section ConcreteFurther.
Import Toy.

Lemma session_writes_witness :
  respond push = Streaming opened ∧
  res (session_run opened whole_session) =
    res_writeHead 200 [("Content-Type", "text/event-stream");
                       ("Connection", "keep-alive"); ("Cache-Control", "no-cache")]
    :: map (λ value, res_write (sse_event value)) (delivered whole_session).
Proof.
  split; [reflexivity|].
  exact (session_writes push opened whole_session eq_refl).
Defined.


Lemma collaborators_at_most_once_witness :
  let request := post (Some "Other") hello in
  let stored := cache_get hello parsed_hello in
  let h := handle (helix true []) request parsed_hello in
  asks request hello ∧
  ∃ parses validates compiles queries,
    count is_parse (calls (world h)) = count is_parse (calls parsed_hello) + parses ∧
    count is_validate (calls (world h)) = count is_validate (calls parsed_hello) + validates ∧
    count is_compileQuery (calls (world h)) =
      count is_compileQuery (calls parsed_hello) + compiles ∧
    count is_query (calls (world h)) = count is_query (calls parsed_hello) + queries ∧
    parses = match stored ≫= entry_document with Some _ => 0 | None => 1 end ∧
    validates ≤ 1 ∧ compiles ≤ 1 ∧ queries ≤ 1 ∧
    (is_Some (stored ≫= entry_validationErrors) → validates = 0) ∧
    (is_Some (stored ≫= entry_compiledQuery) → compiles = 0).
Proof.
  cbn zeta.
  assert (Hasks : asks (post (Some "Other") hello) hello) by (split; reflexivity).
  split; [exact Hasks|].
  exact (collaborators_at_most_once (helix true []) (post (Some "Other") hello)
           parsed_hello hello Hasks).
Defined.

Lemma warm_request_witness :
  let request := post (Some "Other") hello in
  let h := handle (helix true []) request warm_hello in
  asks request hello ∧
  cache_get hello warm_hello =
    Some {| entry_compiledQuery := Some (CompiledQuery toy_query);
            entry_document := Some hello_located; entry_validationErrors := Some [] |} ∧
  cache (world h) = cache warm_hello ∧
  calls (world h) = calls warm_hello ++ [Call_query () () []] ∧
  answer h = respond (classify (helix true []) (toy_query () () [])).
Proof.
  cbn zeta.
  assert (Hasks : asks (post (Some "Other") hello) hello) by (split; reflexivity).
  split; [exact Hasks|]. split; [reflexivity|].
  exact (warm_request (helix true []) (post (Some "Other") hello) warm_hello hello
           (CompiledQuery toy_query) hello_located Hasks eq_refl).
Defined.

Lemma cold_request_witness :
  let request := post (Some "Deferred") hello in
  let h := handle (helix false []) request fresh in
  asks request hello ∧
  cache_get hello fresh = None ∧
  parse hello (parseOptions (helix false [])) = Normal hello_located ∧
  validate schema hello_located (validationRules (helix false []))
    (typeInfo (helix false [])) (validateOptions (helix false [])) = [] ∧
  cache_get hello (world h) =
    Some {| entry_compiledQuery := Some (toy_compileQuery () hello_located (Some "Deferred"));
            entry_document := Some hello_located; entry_validationErrors := Some [] |} ∧
  calls (world h) =
    calls fresh ++
    [Call_parse hello false; Call_validate () hello_located [] () ();
     Call_compileQuery () hello_located (Some "Deferred")] ++ [] ∧
  answer h =
    respond (classify (helix false []) "{errors:[@defer is not supported]}").
Proof.
  cbn zeta.
  assert (Hasks : asks (post (Some "Deferred") hello) hello) by (split; reflexivity).
  split; [exact Hasks|]. do 3 (split; [reflexivity|]).
  exact (cold_request (helix false []) (post (Some "Deferred") hello) fresh hello
           hello_located Hasks eq_refl eq_refl eq_refl).
Defined.

End ConcreteFurther.

End GraphqlJit.
